(** * Data quality auditor: a shallow embedding and its properties

    The Python program [data_quality_auditor_v1_STABLE_030126.py] loads a
    list of records (field name -> raw string), runs four field validators
    over it, aggregates the issues by severity and derives an exit code.

    Python values are embedded as follows.
    - [str] is a list of Unicode code points ([list N]); [py "..."] turns a
      literal of the source into such a list.
    - a [dict] is a [gmap] keyed by strings; an issue is a dict whose values
      are strings, integers or [None].
    - code that can raise returns a [result]; [try/except] is a match on it.
    - what the interpreter and its libraries supply (Unicode tables outside
      ASCII, the country dataset, the clock, the integer conversion limit)
      is a [Runtime] passed to the functions that consult it.
    - the files the exports write are a [gmap] from paths to what was
      handed to the writer; whether a path can be opened is a parameter. *)

From Stdlib Require Import ZArith NArith Ascii String List Lia Bool.
From stdpp Require Import base option list gmap fin_maps strings.

Open Scope Z_scope.

(** ** Python strings *)

Abbreviation pystr := (list N) (only parsing).

Definition chr (a : ascii) : N := N_of_ascii a.

Definition py (s : string) : pystr := map chr (list_ascii_of_string s).

(** Truth value of a [str]: non-empty. *)
Definition nonempty (s : pystr) : bool :=
  match s with [] => false | _ :: _ => true end.

(** Truth value of a [list]: non-empty. *)
Definition nonempty_list {A} (l : list A) : bool :=
  match l with [] => false | _ :: _ => true end.

(** [Py_UNICODE_ISSPACE]: the code points [str.strip()] removes. *)
Definition py_isspace (c : N) : bool :=
  ((9 <=? c) && (c <=? 13) || (28 <=? c) && (c <=? 32)
   || (c =? 133) || (c =? 160) || (c =? 5760)
   || (8192 <=? c) && (c <=? 8202)
   || (c =? 8232) || (c =? 8233) || (c =? 8239) || (c =? 8287)
   || (c =? 12288))%N.

Fixpoint lstrip (s : pystr) : pystr :=
  match s with
  | [] => []
  | c :: rest => if py_isspace c then lstrip rest else s
  end.

Definition rstrip (s : pystr) : pystr := rev (lstrip (rev s)).

(** [s.strip()] *)
Definition strip (s : pystr) : pystr := rstrip (lstrip s).

(** [s.count(c)] for a one-character [c]. *)
Fixpoint str_count (s : pystr) (c : N) : Z :=
  match s with
  | [] => 0
  | x :: rest => (if (x =? c)%N then 1 else 0) + str_count rest c
  end.

(** [s.split(c)] for a one-character separator [c]. *)
Fixpoint str_split (s : pystr) (c : N) : list pystr :=
  match s with
  | [] => [[]]
  | x :: rest =>
      if (x =? c)%N then [] :: str_split rest c
      else match str_split rest c with
           | [] => [[x]]
           | piece :: pieces => (x :: piece) :: pieces
           end
  end.

(** [c in s] for a one-character [c]. *)
Definition str_contains (s : pystr) (c : N) : bool :=
  existsb (fun x => (x =? c)%N) s.

(** [s.startswith(c)] and [s.endswith(c)] for a one-character [c]. *)
Definition startswith (s : pystr) (c : N) : bool :=
  match s with [] => false | x :: _ => (x =? c)%N end.

Definition endswith (s : pystr) (c : N) : bool := startswith (rev s) c.

(** ** Values, exceptions, results *)

Inductive pyval :=
  | VNone
  | VInt (z : Z)
  | VStr (s : pystr).

#[global] Instance pyval_eq_dec : EqDecision pyval.
Proof. solve_decision. Defined.

Inductive exn := ValueError | KeyError.

#[global] Instance exn_eq_dec : EqDecision exn.
Proof. solve_decision. Defined.

Inductive result (A : Type) :=
  | Ok (a : A)
  | Raise (e : exn).
Arguments Ok {A} a.
Arguments Raise {A} e.

#[global] Instance result_ret : MRet result := fun _ a => Ok a.
#[global] Instance result_bind : MBind result := fun _ _ f r =>
  match r with
  | Ok a => f a
  | Raise e => Raise e
  end.

(** [d.get(k, dflt)] *)
Definition dict_get {A} (d : gmap pystr A) (k : string) (dflt : A) : A :=
  default dflt (d !! py k).

(** A dict literal with literal keys. *)
Definition dict {A} (items : list (string * A)) : gmap pystr A :=
  list_to_map (map (fun kv => (py (fst kv), snd kv)) items).

(** A record is one input row; an issue is one flagged defect.  The cells
    of a record are strings, as in a row that is as long as the header.
    [csv.DictReader] fills the missing cells of a shorter row with [None],
    on which [record.get(field, "").strip()] raises [AttributeError]: such
    a row has no record here, so what is said of the issues of a validator
    is said of a run in which the validator returns. *)
Abbreviation Record := (gmap pystr pystr) (only parsing).
Abbreviation Issue := (gmap pystr pyval) (only parsing).

(** ** The runtime *)

Record date := mkdate { year : Z; month : Z; day : Z }.

#[global] Instance date_eq_dec : EqDecision date.
Proof. solve_decision. Defined.

Record Runtime := {
  (** [Py_UNICODE_TODECIMAL] on non-ASCII code points: the value of a
      character of category Nd, if it is one. *)
  unicode_decimal : N -> option N;
  (** [Py_UNICODE_ISDIGIT] on non-ASCII code points. *)
  unicode_isdigit : N -> bool;
  (** The full upper-case mapping of a non-ASCII code point. *)
  unicode_upper : N -> list N;
  (** [sys.get_int_max_str_digits()]; 0 switches the limit off. *)
  int_max_str_digits : Z;
  (** [pycountry.countries.lookup(raw).name]; [None] is [LookupError]. *)
  countries_lookup : pystr -> option pystr;
  (** [date.today()] *)
  today : date;
}.

(** ** Strings and numbers that depend on the runtime *)

Section Builtins.
Variable R : Runtime.

(** The decimal value of a code point ([unicodedata.decimal]); ASCII is
    fixed, the rest comes from the runtime's table. *)
Definition decimal_value (c : N) : option N :=
  if (c <? 128)%N then
    if ((48 <=? c) && (c <=? 57))%N then Some (c - 48)%N else None
  else unicode_decimal R c.

Definition isdecimal_char (c : N) : bool :=
  match decimal_value c with Some _ => true | None => false end.

Definition isdigit_char (c : N) : bool :=
  if (c <? 128)%N then ((48 <=? c) && (c <=? 57))%N
  else unicode_isdigit R c.

(** [s.isdigit()]: at least one character and all of them digits. *)
Definition isdigit (s : pystr) : bool :=
  nonempty s && forallb isdigit_char s.

Definition upper_char (c : N) : list N :=
  if (c <? 128)%N then
    [if ((97 <=? c) && (c <=? 122))%N then (c - 32)%N else c]
  else unicode_upper R c.

(** [s.upper()] *)
Definition upper (s : pystr) : pystr := flat_map upper_char s.

(** *** [int(s)]

    CPython first rewrites a non-ASCII string: code points below 127 stay,
    Unicode spaces become a blank, decimals become their ASCII digit and
    anything else ends the string with a question mark.  The parser then
    skips C-locale blanks on both sides, reads an optional sign and a run of
    digits in which single underscores may separate digits, and refuses
    more digits than the configured limit (the limit is looked at only
    beyond 640 digits). *)

Inductive intchar := ISpace | ISign (neg : bool) | IUnderscore | IDigit (d : N) | IOther.

Definition int_class (c : N) : intchar :=
  if (c <? 127)%N then
    if ((9 <=? c) && (c <=? 13) || (c =? 32))%N then ISpace
    else if (c =? 43)%N then ISign false
    else if (c =? 45)%N then ISign true
    else if (c =? 95)%N then IUnderscore
    else if ((48 <=? c) && (c <=? 57))%N then IDigit (c - 48)%N
    else IOther
  else if py_isspace c then ISpace
  else match decimal_value c with
       | Some d => IDigit d
       | None => IOther
       end.

Fixpoint int_skip_space (s : list intchar) : list intchar :=
  match s with
  | ISpace :: rest => int_skip_space rest
  | _ => s
  end.

(** A run of digits and what may follow it: [acc] is the value so far, [n]
    the number of digits so far; an underscore must be followed by a digit,
    and after a blank only blanks may come. *)
Fixpoint int_digits (acc : Z) (n : Z) (s : list intchar) : option (Z * Z) :=
  match s with
  | [] => Some (acc, n)
  | IDigit d :: rest => int_digits (10 * acc + Z.of_N d) (n + 1) rest
  | IUnderscore :: rest =>
      match rest with
      | IDigit _ :: _ => int_digits acc n rest
      | _ => None
      end
  | ISpace :: rest =>
      match int_skip_space rest with
      | [] => Some (acc, n)
      | _ => None
      end
  | _ => None
  end.

Definition int_unsigned (s : list intchar) : result Z :=
  match s with
  | IDigit _ :: _ =>
      match int_digits 0 0 s with
      | Some (v, n) =>
          if (640 <? n) && (0 <? int_max_str_digits R)
             && (int_max_str_digits R <? n)
          then Raise ValueError
          else Ok v
      | None => Raise ValueError
      end
  | _ => Raise ValueError
  end.

Definition py_int (s : pystr) : result Z :=
  match int_skip_space (map int_class s) with
  | ISign neg :: rest =>
      v ← int_unsigned rest; Ok (if neg then - v else v)
  | t => int_unsigned t
  end.


(** *** Calendar dates ([datetime.date]) *)

Definition is_leap (y : Z) : bool :=
  (y mod 4 =? 0) && (negb (y mod 100 =? 0) || (y mod 400 =? 0)).

Definition days_in_month (y m : Z) : Z :=
  if m =? 2 then (if is_leap y then 29 else 28)
  else if (m =? 4) || (m =? 6) || (m =? 9) || (m =? 11) then 30
  else 31.

(** The constructor checks its fields and raises [ValueError]. *)
Definition make_date (y m d : Z) : result date :=
  if (1 <=? y) && (y <=? 9999) && (1 <=? m) && (m <=? 12)
     && (1 <=? d) && (d <=? days_in_month y m)
  then Ok (mkdate y m d)
  else Raise ValueError.

(** [a > b] on dates: by year, then month, then day. *)
Definition date_gt (a b : date) : bool :=
  (year b <? year a)
  || (year a =? year b) && ((month b <? month a)
      || (month a =? month b) && (day b <? day a)).

(** *** [datetime.strptime(data_string, format).date()]

    The format is compiled into a regular expression, one group per
    directive; the alternatives of a group are tried in the order written,
    with backtracking.  The directives the program uses are modelled:
    - [%d]: [3[0-1]|[1-2]\d|0[1-9]|[1-9]| [1-9]]
    - [%m]: [1[0-2]|0[1-9]|[1-9]]
    - [%Y]: four decimals; [%y]: two decimals
    where [\d] is any Unicode decimal.  A format with another directive or
    with white space is outside the model and reported as [ValueError]. *)

Inductive reatom := RLit (c : N) | RRange (lo hi : N) | RDecimal.

Definition atom_matches (a : reatom) (c : N) : bool :=
  match a with
  | RLit x => (c =? x)%N
  | RRange lo hi => ((lo <=? c) && (c <=? hi))%N
  | RDecimal => isdecimal_char c
  end.

(** Match a sequence of atoms at the start of [s]: the matched text and
    what is left. *)
Fixpoint match_atoms (atoms : list reatom) (s : pystr) : option (pystr * pystr) :=
  match atoms with
  | [] => Some ([], s)
  | a :: atoms' =>
      match s with
      | [] => None
      | c :: s' =>
          if atom_matches a c then
            match match_atoms atoms' s' with
            | Some (tok, rest) => Some (c :: tok, rest)
            | None => None
            end
          else None
      end
  end.

Inductive directive := Dir_d | Dir_m | Dir_Y | Dir_y.

#[global] Instance directive_eq_dec : EqDecision directive.
Proof. solve_decision. Defined.

Definition directive_regex (d : directive) : list (list reatom) :=
  match d with
  | Dir_d => [ [RLit 51; RRange 48 49]; [RRange 49 50; RDecimal];
               [RLit 48; RRange 49 57]; [RRange 49 57];
               [RLit 32; RRange 49 57] ]
  | Dir_m => [ [RLit 49; RRange 48 50]; [RLit 48; RRange 49 57];
               [RRange 49 57] ]
  | Dir_Y => [ [RDecimal; RDecimal; RDecimal; RDecimal] ]
  | Dir_y => [ [RDecimal; RDecimal] ]
  end%N.

Inductive fmt_item := FLit (c : N) | FDir (d : directive).

Definition directive_of (c : N) : option directive :=
  if (c =? chr "d")%N then Some Dir_d
  else if (c =? chr "m")%N then Some Dir_m
  else if (c =? chr "Y")%N then Some Dir_Y
  else if (c =? chr "y")%N then Some Dir_y
  else None.

Fixpoint format_items (format : pystr) : option (list fmt_item) :=
  match format with
  | [] => Some []
  | c :: rest =>
      if (c =? chr "%")%N then
        match rest with
        | [] => None
        | x :: rest' =>
            match directive_of x, format_items rest' with
            | Some d, Some items => Some (FDir d :: items)
            | _, _ => None
            end
        end
      else if py_isspace c then None
      else match format_items rest with
           | Some items => Some (FLit c :: items)
           | None => None
           end
  end.

(** The first alternative of [alts] for which [k] succeeds. *)
Fixpoint first_alternative {A} (k : list reatom -> option A)
    (alts : list (list reatom)) : option A :=
  match alts with
  | [] => None
  | alt :: alts' =>
      match k alt with
      | Some r => Some r
      | None => first_alternative k alts'
      end
  end.

(** [format_regex.match(data_string)]: the text of each group, and what
    is left of the string after the match. *)
Fixpoint regex_match (items : list fmt_item) (s : pystr)
  : option (list (directive * pystr) * pystr) :=
  match items with
  | [] => Some ([], s)
  | FLit c :: items' =>
      match s with
      | [] => None
      | x :: s' => if (x =? c)%N then regex_match items' s' else None
      end
  | FDir d :: items' =>
      first_alternative
        (fun alt =>
           match match_atoms alt s with
           | Some (tok, rest) =>
               match regex_match items' rest with
               | Some (groups, remaining) => Some ((d, tok) :: groups, remaining)
               | None => None
               end
           | None => None
           end)
        (directive_regex d)
  end.

(** The fields found so far; [strptime] starts from 1900-01-01. *)
Fixpoint found_fields (groups : list (directive * pystr)) (y m d : Z)
  : result (Z * Z * Z) :=
  match groups with
  | [] => Ok (y, m, d)
  | (Dir_d, tok) :: groups' => v ← py_int tok; found_fields groups' y m v
  | (Dir_m, tok) :: groups' => v ← py_int tok; found_fields groups' y v d
  | (Dir_Y, tok) :: groups' => v ← py_int tok; found_fields groups' v m d
  | (Dir_y, tok) :: groups' =>
      v ← py_int tok;
      found_fields groups' (if v <=? 68 then v + 2000 else v + 1900) m d
  end.

Definition strptime (data_string format : pystr) : result date :=
  match format_items format with
  | None => Raise ValueError
  | Some items =>
      match regex_match items data_string with
      | None => Raise ValueError
      | Some (groups, remaining) =>
          if nonempty remaining then Raise ValueError
          else
            ymd ← found_fields groups 1900 1 1;
            make_date ymd.1.1 ymd.1.2 ymd.2
      end
  end.

End Builtins.

(** ** The program *)

Definition EXIT_OK : Z := 0.
Definition EXIT_WARNING : Z := 5.
Definition EXIT_ISSUES_FOUND : Z := 10.
Definition EXIT_INTERNAL_ERROR : Z := 30.

Definition SEVERITY_RANK : gmap pystr Z :=
  dict [("info", 1); ("warning", 2); ("error", 3)]%string.

Definition UK_ALIASES : gset pystr :=
  {[ py "UK"; py "U.K."; py "UNITED KINGDOM" ]}.

(** [for idx, record in enumerate(records, start=idx): ...] where the body
    appends to [issues]; an exception in the body ends the loop. *)
Fixpoint for_each_record (body : Z -> Record -> result (list Issue))
    (idx : Z) (records : list Record) : result (list Issue) :=
  match records with
  | [] => Ok []
  | record :: rest =>
      new ← body idx record;
      more ← for_each_record body (idx + 1) rest;
      Ok (new ++ more)
  end.

Section Validators.
Variable R : Runtime.

(** The body of the loop of [check_invalid_emails]. *)
Definition email_rules (idx : Z) (record : Record) : result (list Issue) :=
  let email := strip (dict_get record "email" []) in
  if negb (nonempty email) then
    Ok [dict [("row", VInt idx);
              ("field", VStr (py "email"));
              ("value", VStr email);
              ("reason", VStr (py "email missing or empty"))]%string]
  else if negb (str_count email (chr "@") =? 1) then
    Ok [dict [("row", VInt idx);
              ("field", VStr (py "email"));
              ("value", VStr email);
              ("issue", VStr (py "missing or multiple @"));
              ("severity", VStr (py "warning"))]%string]
  else
    match str_split email (chr "@") with
    | [local; domain] =>
        if negb (nonempty local) || negb (nonempty domain) then
          Ok [dict [("row", VInt idx);
                    ("field", VStr (py "email"));
                    ("value", VStr email);
                    ("reason", VStr (py "Invalid local or domain part"));
                    ("severity", VStr (py "warning"))]%string]
        else if negb (str_contains domain (chr ".")) then
          Ok [dict [("row", VInt idx);
                    ("field", VStr (py "email"));
                    ("value", VStr email);
                    ("reason", VStr (py "domain missing dot"));
                    ("severity", VStr (py "warning"))]%string]
        else if startswith domain (chr ".") || endswith domain (chr ".") then
          Ok [dict [("row", VInt idx);
                    ("field", VStr (py "email"));
                    ("value", VStr email);
                    ("reason", VStr (py "domain starts or ends with a dot"));
                    ("severity", VStr (py "warning"))]%string]
        else Ok []
    | _ => Raise ValueError
    end.

Definition check_invalid_emails (records : list Record) : result (list Issue) :=
  for_each_record email_rules 1 records.

(** The body of the loop of [check_invalid_ages]. *)
Definition age_rules (idx : Z) (record : Record) : result (list Issue) :=
  let age_raw := strip (dict_get record "age" []) in
  if negb (nonempty age_raw) then
    Ok [dict [("row", VInt idx);
              ("field", VStr (py "age"));
              ("value", VStr age_raw);
              ("reason", VStr (py "age missing"));
              ("severity", VStr (py "warning"))]%string]
  else if negb (isdigit R age_raw) then
    Ok [dict [("row", VInt idx);
              ("field", VStr (py "age"));
              ("value", VStr age_raw);
              ("reason", VStr (py "age not numerical"));
              ("severity", VStr (py "warning"))]%string]
  else
    age ← py_int R age_raw;
    if (age <? 1) || (120 <? age) then
      Ok [dict [("row", VInt idx);
                ("field", VStr (py "age"));
                ("value", VInt age);
                ("reason", VStr (py "age out of range"));
                ("severity", VStr (py "warning"))]%string]
    else Ok [].

Definition check_invalid_ages (records : list Record) : result (list Issue) :=
  for_each_record age_rules 1 records.

(** [value] is [None] for Python's [None]; so is the result. *)
Definition resolve_country (value : option pystr) : option pystr :=
  match value with
  | None => None
  | Some v =>
      if negb (nonempty v) then None
      else
        let raw := upper R (strip v) in
        if bool_decide (raw ∈ UK_ALIASES) then Some (py "United Kingdom")
        else countries_lookup R raw
  end.

(** A string or [None] as a value. *)
Definition opt_val (o : option pystr) : pyval :=
  match o with Some s => VStr s | None => VNone end.

(** Truth value of a string or [None]. *)
Definition opt_truthy (o : option pystr) : bool :=
  match o with Some s => nonempty s | None => false end.

(** The body of the loop of [check_invalid_countries]. *)
Definition country_rules (idx : Z) (record : Record) : result (list Issue) :=
  let raw_country := record !! py "country" in
  let resolved := resolve_country raw_country in
  if negb (opt_truthy resolved) then
    Ok [dict [("row", VInt idx);
              ("field", VStr (py "country"));
              ("value", opt_val raw_country);
              ("reason", VStr (py "country missing or null"));
              ("severity", VStr (py "warning"))]%string]
  else Ok [].

Definition check_invalid_countries (records : list Record) : result (list Issue) :=
  for_each_record country_rules 1 records.

Definition accepted_formats : list pystr := [py "%d/%m/%Y"; py "%y/%m/%d"].

(** The inner loop of [check_invalid_signup_dates]: the first format that
    parses wins; [ValueError] moves on to the next format. *)
Fixpoint parse_date (raw_date : pystr) (formats : list pystr)
  : result (option date) :=
  match formats with
  | [] => Ok None
  | fmt :: formats' =>
      match strptime R raw_date fmt with
      | Ok parsed_date => Ok (Some parsed_date)
      | Raise ValueError => parse_date raw_date formats'
      | Raise e => Raise e
      end
  end.

(** The body of the outer loop of [check_invalid_signup_dates]. *)
Definition signup_date_rules (idx : Z) (record : Record) : result (list Issue) :=
  let raw_date := strip (dict_get record "signup_date" []) in
  if negb (nonempty raw_date) then
    Ok [dict [("row", VInt idx);
              ("field", VStr (py "signup_date"));
              ("value", VStr raw_date);
              ("reason", VStr (py "signup date missing or empty"));
              ("severity", VStr (py "warning"))]%string]
  else
    parsed ← parse_date raw_date accepted_formats;
    match parsed with
    | None =>
        Ok [dict [("row", VInt idx);
                  ("field", VStr (py "signup_date"));
                  ("value", VStr raw_date);
                  ("reason", VStr (py "Invalid date format"));
                  ("severity", VStr (py "warning"))]%string]
    | Some parsed_date =>
        if date_gt parsed_date (today R) then
          Ok [dict [("row", VInt idx);
                    ("field", VStr (py "signup_date"));
                    ("value", VStr raw_date);
                    ("reason", VStr (py "signup_date is in the future"));
                    ("severity", VStr (py "warning"))]%string]
        else Ok []
    end.

Definition check_invalid_signup_dates (records : list Record) : result (list Issue) :=
  for_each_record signup_date_rules 1 records.

Definition run_all_checks (records : list Record) : result (list Issue) :=
  emails ← check_invalid_emails records;
  ages ← check_invalid_ages records;
  countries ← check_invalid_countries records;
  signup_dates ← check_invalid_signup_dates records;
  Ok (emails ++ ages ++ countries ++ signup_dates).

End Validators.

(** ** Severity aggregation and exit code *)

(** [issue.get("severity", "warning")] *)
Definition issue_severity (issue : Issue) : pyval :=
  dict_get issue "severity" (VStr (py "warning")).

(** [SEVERITY_RANK.get(v, 0)] for any value [v]: only a string can be a
    key of the table. *)
Definition severity_rank_of (v : pyval) : Z :=
  match v with
  | VStr s => default 0 (SEVERITY_RANK !! s)
  | _ => 0
  end.

(** [SEVERITY_RANK[threshold]] raises [KeyError] on an unknown level. *)
Definition filter_issues_by_severity (issues : list Issue) (threshold : pystr)
  : result (list Issue) :=
  match SEVERITY_RANK !! threshold with
  | None => Raise KeyError
  | Some threshold_rank =>
      Ok (List.filter
            (fun issue => threshold_rank <=? severity_rank_of (issue_severity issue))
            issues)
  end.

(** One turn of the loop of [count_issues_by_severity]. *)
Definition count_step (counts : gmap pystr Z) (issue : Issue) : gmap pystr Z :=
  match issue_severity issue with
  | VStr severity =>
      match counts !! severity with
      | Some n => <[severity := n + 1]> counts
      | None => counts
      end
  | _ => counts
  end.

Definition count_issues_by_severity (issues : list Issue) : gmap pystr Z :=
  fold_left count_step issues
    (dict [("info", 0); ("warning", 0); ("error", 0)]%string).

Record Summary := {
  total_records : Z;
  total_issues : Z;
  severity_counts : gmap pystr Z;
}.

Definition build_summary (records : list Record) (issues : list Issue) : Summary :=
  {| total_records := Z.of_nat (length records);
     total_issues := Z.of_nat (length issues);
     severity_counts := count_issues_by_severity issues |}.

(** The parsed command line, as far as the modelled functions read it. *)
Record Args := {
  severity_threshold : pystr;
  fail_on_warning : bool;
}.

Definition determine_exit_code (summary : Summary) (issues : list Issue)
    (args : Args) : result Z :=
  if total_records summary =? 0 then Ok EXIT_OK
  else
    blocking ← filter_issues_by_severity issues (severity_threshold args);
    if nonempty_list blocking && fail_on_warning args then Ok EXIT_WARNING
    else if nonempty_list blocking then Ok EXIT_ISSUES_FOUND
    else Ok EXIT_OK.

(** What a run of [main] leaves behind: the summary it prints and exports,
    the issues it hands to the exporters, and the exit code it returns. *)
Record Outcome := {
  out_summary : Summary;
  out_issues : list Issue;
  out_code : Z;
}.

(** [main] from the loaded records on: [parse_arguments] and
    [load_records] have returned; printing and writing the exports are
    left out. *)
Definition main (R : Runtime) (args : Args) (records : list Record)
  : result Outcome :=
  all_issues ← run_all_checks R records;
  let summary := build_summary records all_issues in
  filtered_issues ← filter_issues_by_severity all_issues (severity_threshold args);
  code ← determine_exit_code summary filtered_issues args;
  Ok {| out_summary := summary; out_issues := filtered_issues; out_code := code |}.

(** The handler around [main], from the loaded records on: what is
    raised from there is an [Exception] and ends in [EXIT_INTERNAL_ERROR].
    The [SystemExit] of a command line that [argparse] rejects and a load
    that fails come before and are not modelled. *)
Definition exit_status (R : Runtime) (args : Args) (records : list Record) : Z :=
  match main R args records with
  | Ok out => out_code out
  | Raise _ => EXIT_INTERNAL_ERROR
  end.

(** ** Exports

    What a file holds once the program has written it: the header and the
    rows handed to [csv.DictWriter], or the object handed to [json.dump].
    The layout of the rows and of the object as text is not modelled, and
    of the ways a write can fail only the [OSError] of [open(path, "w")]
    is. *)

Inductive file :=
  | CsvFile (fieldnames : list pystr) (rows : list Issue)
  | JsonFile (summary : Summary) (issues : list Issue).

Abbreviation FileSystem := (gmap pystr file) (only parsing).

(** The file system after a call, and whether the call returned or
    raised [OSError]. *)
Inductive written :=
  | Written (fs : FileSystem)
  | OSError (fs : FileSystem).

(** [--output-csv] and [--output-json] of the parsed command line; [None]
    when the option is not given. *)
Record Outputs := {
  output_csv : option pystr;
  output_json : option pystr;
}.

Section Exports.
(** Whether [open(path, "w")] succeeds. *)
Variable can_open : pystr -> bool.

(** The list [cleaned] of [export_csv]; [i.get(k)] is [None] for a key
    the issue does not have. *)
Definition cleaned (issues : list Issue) : list Issue :=
  map (fun i : Issue =>
         dict [("row", dict_get i "row" VNone);
               ("field", dict_get i "field" VNone);
               ("value", dict_get i "value" VNone);
               ("reason", dict_get i "reason" VNone)]%string)
    issues.

Definition export_csv (issues : list Issue) (path : pystr) (fs : FileSystem)
  : written :=
  if negb (nonempty_list issues) then Written fs
  else
    let fieldnames := [py "row"; py "field"; py "value"; py "reason"] in
    if can_open path then
      Written (<[path := CsvFile fieldnames (cleaned issues)]> fs)
    else OSError fs.

Definition export_json (issues : list Issue) (summary : Summary) (path : pystr)
    (fs : FileSystem) : written :=
  if can_open path then Written (<[path := JsonFile summary issues]> fs)
  else OSError fs.

(** The two tests are on the truth value of the option: a path that is
    [None] or empty is skipped. *)
Definition handle_exports (issues : list Issue) (summary : Summary)
    (args : Outputs) (fs : FileSystem) : written :=
  match (if opt_truthy (output_csv args)
         then export_csv issues (default [] (output_csv args)) fs
         else Written fs) with
  | OSError fs' => OSError fs'
  | Written fs' =>
      if opt_truthy (output_json args)
      then export_json issues summary (default [] (output_json args)) fs'
      else Written fs'
  end.

(** [main] with its exports, from the loaded records on and under the
    handler at the bottom of the script: the file system the run leaves
    behind and the status it exits with.  The exports come after the
    filter and before the exit code. *)
Definition main_with_exports (R : Runtime) (args : Args) (outputs : Outputs)
    (records : list Record) (fs : FileSystem) : FileSystem * Z :=
  match run_all_checks R records with
  | Raise _ => (fs, EXIT_INTERNAL_ERROR)
  | Ok all_issues =>
      let summary := build_summary records all_issues in
      match filter_issues_by_severity all_issues (severity_threshold args) with
      | Raise _ => (fs, EXIT_INTERNAL_ERROR)
      | Ok filtered_issues =>
          match handle_exports filtered_issues summary outputs fs with
          | OSError fs' => (fs', EXIT_INTERNAL_ERROR)
          | Written fs' =>
              match determine_exit_code summary filtered_issues args with
              | Ok code => (fs', code)
              | Raise _ => (fs', EXIT_INTERNAL_ERROR)
              end
          end
      end
  end.

End Exports.

(** The three severity levels, as [--severity-threshold] admits them. *)
Inductive level := Info | Warning | Error.

Definition level_name (l : level) : pystr :=
  match l with
  | Info => py "info"
  | Warning => py "warning"
  | Error => py "error"
  end.

Definition level_rank (l : level) : Z :=
  match l with Info => 1 | Warning => 2 | Error => 3 end.

(** ** A concrete runtime

    Unicode data for the Latin-1 supplement (U+0080 to U+00FF): no decimal
    there, three superscript digits, the upper-case mappings of that block;
    code points above it are given no property.  A three-country excerpt of
    the dataset, the default integer limit and a fixed day. *)

Module Sample.

Definition decimal (c : N) : option N := None.

Definition digit (c : N) : bool :=
  ((c =? 178) || (c =? 179) || (c =? 185))%N.

Definition to_upper (c : N) : list N :=
  (if c =? 181 then [924]
   else if c =? 223 then [83; 83]
   else if c =? 255 then [376]
   else if (224 <=? c) && (c <=? 254) && negb (c =? 247) then [c - 32]
   else [c])%N.

Definition lookup (raw : pystr) : option pystr :=
  if bool_decide (raw ∈ [py "FRANCE"; py "FR"; py "FRA"]) then Some (py "France")
  else if bool_decide (raw ∈ [py "GERMANY"; py "DE"; py "DEU"]) then Some (py "Germany")
  else if bool_decide (raw ∈ [py "JAPAN"; py "JP"; py "JPN"]) then Some (py "Japan")
  else None.

Definition runtime : Runtime :=
  {| unicode_decimal := decimal;
     unicode_isdigit := digit;
     unicode_upper := to_upper;
     int_max_str_digits := 4300;
     countries_lookup := lookup;
     today := mkdate 2026 1 3 |}.

End Sample.

(** ** Vocabulary of the statements *)

(** The issue counts as level [l]: its severity, [warning] when the key is
    missing, is the name of [l]. *)
Definition has_level (l : level) (issue : Issue) : bool :=
  bool_decide (issue_severity issue = VStr (level_name l)).

Definition known_severity (issue : Issue) : bool :=
  has_level Info issue || has_level Warning issue || has_level Error issue.

(** How many issues of the list satisfy [p]. *)
Definition how_many (p : Issue -> bool) (issues : list Issue) : Z :=
  Z.of_nat (length (List.filter p issues)).

(** The sum of the three counters of a tally. *)
Definition tally_sum (counts : gmap pystr Z) : Z :=
  default 0 (counts !! py "info") + default 0 (counts !! py "warning")
  + default 0 (counts !! py "error").

(** The issues of the list that carry the row number [row]. *)
Definition issues_of_row (row : Z) (issues : list Issue) : list Issue :=
  List.filter (fun issue => bool_decide (issue !! py "row" = Some (VInt row)))
    issues.

(** Two records give the same [record.get(field, "")]. *)
Definition same_field (field : string) (r r' : Record) : Prop :=
  dict_get r field [] = dict_get r' field [].

(** The loop body stamps every issue it appends with the row it is at. *)
Definition stamps_row (body : Z -> Record -> result (list Issue)) : Prop :=
  forall idx record issues,
    body idx record = Ok issues ->
    Forall (fun issue => issue !! py "row" = Some (VInt idx)) issues.

(** The severity of the issue is [warning], written out or by default. *)
Definition warning_or_unset (issue : Issue) : Prop :=
  issue !! py "severity" = Some (VStr (py "warning")) \/
  issue !! py "severity" = None.

(** The parse the date validator keeps: the first format first. *)
Definition first_parse (R : Runtime) (raw_date : pystr) : option date :=
  match strptime R raw_date (py "%d/%m/%Y") with
  | Ok d => Some d
  | Raise _ =>
      match strptime R raw_date (py "%y/%m/%d") with
      | Ok d => Some d
      | Raise _ => None
      end
  end.

(** The higher of two levels. *)
Definition level_max (a b : level) : level :=
  if level_rank a <=? level_rank b then b else a.

(** The counter of a level in a tally, 0 when the key is missing. *)
Definition count_of (counts : gmap pystr Z) (l : level) : Z :=
  default 0 (counts !! level_name l).

(** The four validators, to speak of them together. *)
Inductive validator := Emails | Ages | Countries | SignupDates.

Definition validator_rules (R : Runtime) (v : validator)
  : Z -> Record -> result (list Issue) :=
  match v with
  | Emails => email_rules
  | Ages => age_rules R
  | Countries => country_rules R
  | SignupDates => signup_date_rules R
  end.

Definition run_validator (R : Runtime) (v : validator) (records : list Record)
  : result (list Issue) :=
  match v with
  | Emails => check_invalid_emails records
  | Ages => check_invalid_ages R records
  | Countries => check_invalid_countries R records
  | SignupDates => check_invalid_signup_dates R records
  end.

Definition validator_field (v : validator) : pystr :=
  match v with
  | Emails => py "email"
  | Ages => py "age"
  | Countries => py "country"
  | SignupDates => py "signup_date"
  end.

(** The issue names the field [field], and has a row and a value. *)
Definition issue_of_field (field : pystr) (issue : Issue) : Prop :=
  issue !! py "field" = Some (VStr field) /\
  is_Some (issue !! py "row") /\ is_Some (issue !! py "value").

(** The row of the issue is a number between [lo] and [hi]. *)
Definition row_between (lo hi : Z) (issue : Issue) : Prop :=
  exists j, lo <= j <= hi /\ issue !! py "row" = Some (VInt j).

(** [sep.join(pieces)] for a one-character separator. *)
Fixpoint str_join (sep : N) (pieces : list pystr) : pystr :=
  match pieces with
  | [] => []
  | [piece] => piece
  | piece :: rest => piece ++ sep :: str_join sep rest
  end.

(** An address the email validator has nothing to say about: one [@]
    between two non-empty parts, and a dot inside the domain, neither
    first nor last. *)
Definition accepted_email (email : pystr) : Prop :=
  exists local domain,
    email = local ++ chr "@" :: domain /\
    (chr "@" ∉ local) /\ (chr "@" ∉ domain) /\
    local <> [] /\ domain <> [] /\
    (chr "." ∈ domain) /\
    head domain <> Some (chr ".") /\ last domain <> Some (chr ".").

(** An age the conversion cannot fail on: every digit outside ASCII is a
    decimal and no blank, and the string is within the limit on the
    number of digits. *)
Definition safe_age (R : Runtime) (age_raw : pystr) : Prop :=
  Forall (fun c => (128 <= c)%N -> unicode_isdigit R c = true ->
                   py_isspace c = false /\ is_Some (unicode_decimal R c))
    age_raw /\
  (Z.of_nat (length age_raw) <= 640 \/ int_max_str_digits R <= 0 \/
   Z.of_nat (length age_raw) <= int_max_str_digits R).

(** The text of the issue is under [reason], or, as the first email rule
    writes it, under [issue]. *)
Definition reason_or_issue (issue : Issue) : Prop :=
  (exists text, issue !! py "reason" = Some (VStr text) /\
                issue !! py "issue" = None) \/
  (issue !! py "reason" = None /\
   issue !! py "issue" = Some (VStr (py "missing or multiple @"))).

(** The row of the CSV export made from the issue: the four columns, with
    the issue's row, field and value. *)
Definition csv_row_of (issue row : Issue) : Prop :=
  dom row = ({[ py "row"; py "field"; py "value"; py "reason" ]} : gset pystr) /\
  is_Some (issue !! py "row") /\ row !! py "row" = issue !! py "row" /\
  is_Some (issue !! py "field") /\ row !! py "field" = issue !! py "field" /\
  is_Some (issue !! py "value") /\ row !! py "value" = issue !! py "value".

(** * Properties *)

(** ** The severity filter *)

Lemma severity_rank_level (t : level) :
  SEVERITY_RANK !! level_name t = Some (level_rank t).
Proof. destruct t; reflexivity. Qed.

(** On a level of the command line the filter returns, and keeps the
    issues whose rank reaches the level's. *)
Lemma filter_issues_by_severity_level (issues : list Issue) (t : level) :
  filter_issues_by_severity issues (level_name t) =
  Ok (List.filter
        (fun issue => level_rank t <=? severity_rank_of (issue_severity issue))
        issues).
Proof.
  unfold filter_issues_by_severity. now rewrite severity_rank_level.
Qed.

Lemma filter_length_antitone {A} (p q : A -> bool) (l : list A) :
  (forall x, q x = true -> p x = true) ->
  (length (List.filter q l) <= length (List.filter p l))%nat.
Proof.
  intros Hqp. induction l as [|x l IH]; simpl; [lia|].
  destruct (q x) eqn:Hq.
  - rewrite (Hqp x Hq). simpl. lia.
  - destruct (p x); simpl; lia.
Qed.

Lemma filter_filter_same {A} (p : A -> bool) (l : list A) :
  List.filter p (List.filter p l) = List.filter p l.
Proof.
  induction l as [|x l IH]; simpl; [reflexivity|].
  destruct (p x) eqn:Hp; simpl; [rewrite Hp, IH|]; auto.
Qed.

(** C6: raising the threshold never lets more issues through. *)
Theorem filter_issues_by_severity_monotone (issues : list Issue) (t1 t2 : level) :
  level_rank t1 <= level_rank t2 ->
  exists kept1 kept2,
    filter_issues_by_severity issues (level_name t1) = Ok kept1 /\
    filter_issues_by_severity issues (level_name t2) = Ok kept2 /\
    (length kept2 <= length kept1)%nat.
Proof.
  intros Hle. rewrite !filter_issues_by_severity_level.
  eexists; eexists; split; [reflexivity|split; [reflexivity|]].
  apply filter_length_antitone. intros issue H.
  apply Z.leb_le in H. apply Z.leb_le. lia.
Qed.

Lemma filter_issues_by_severity_monotone_witness :
  level_rank Info <= level_rank Error /\
  exists kept1 kept2,
    filter_issues_by_severity
      [dict [("severity", VStr (py "info"))]%string; dict []] (level_name Info)
      = Ok kept1 /\
    filter_issues_by_severity
      [dict [("severity", VStr (py "info"))]%string; dict []] (level_name Error)
      = Ok kept2 /\
    (length kept2 <= length kept1)%nat.
Proof.
  split; [vm_compute; discriminate|].
  apply filter_issues_by_severity_monotone. vm_compute; discriminate.
Defined.

(** Filtering twice at one threshold is filtering once, whatever the
    threshold is. *)
Lemma filter_issues_by_severity_twice (issues kept : list Issue) (threshold : pystr) :
  filter_issues_by_severity issues threshold = Ok kept ->
  filter_issues_by_severity kept threshold = Ok kept.
Proof.
  unfold filter_issues_by_severity.
  destruct (SEVERITY_RANK !! threshold) as [r|]; [|discriminate].
  intros [= <-]. now rewrite filter_filter_same.
Qed.

(** ** The exit code *)

(** C2: no record gives 0; otherwise the blocking issues decide between 5,
    10 and 0. *)
Theorem determine_exit_code_spec (summary : Summary) (issues : list Issue)
    (args : Args) :
  (total_records summary = 0 ->
   determine_exit_code summary issues args = Ok 0) /\
  (forall t : level,
     total_records summary <> 0 ->
     severity_threshold args = level_name t ->
     exists blocking,
       filter_issues_by_severity issues (severity_threshold args) = Ok blocking /\
       determine_exit_code summary issues args =
       Ok (match blocking with
           | [] => 0
           | _ :: _ => if fail_on_warning args then 5 else 10
           end)).
Proof.
  unfold determine_exit_code. split.
  - intros ->. reflexivity.
  - intros t Hrec ->. rewrite filter_issues_by_severity_level.
    eexists; split; [reflexivity|].
    destruct (Z.eqb_spec (total_records summary) 0) as [?|_]; [contradiction|].
    simpl.
    destruct (List.filter _ issues); simpl; [reflexivity|].
    destruct (fail_on_warning args); reflexivity.
Qed.

Lemma determine_exit_code_spec_witness :
  let summary := {| total_records := 1; total_issues := 1;
                    severity_counts := ∅ |} in
  let issues := [dict [("severity", VStr (py "warning"))]%string] in
  let args := {| severity_threshold := py "warning"; fail_on_warning := true |} in
  exists blocking,
    filter_issues_by_severity issues (severity_threshold args) = Ok blocking /\
    determine_exit_code summary issues args =
    Ok (match blocking with
        | [] => 0
        | _ :: _ => if fail_on_warning args then 5 else 10
        end).
Proof.
  intros summary issues args.
  apply (proj2 (determine_exit_code_spec summary issues args) Warning).
  - vm_compute; discriminate.
  - reflexivity.
Defined.

(** ** The tally *)

Lemma count_step_lookup (counts : gmap pystr Z) (issue : Issue) (k : pystr) :
  count_step counts issue !! k =
  (fun n => n + (if bool_decide (issue_severity issue = VStr k) then 1 else 0))
    <$> counts !! k.
Proof.
  unfold count_step.
  destruct (issue_severity issue) as [| z | s] eqn:Hsev.
  - rewrite bool_decide_eq_false_2 by discriminate.
    destruct (counts !! k); simpl; f_equal; lia.
  - rewrite bool_decide_eq_false_2 by discriminate.
    destruct (counts !! k); simpl; f_equal; lia.
  - destruct (decide (s = k)) as [->|Hne].
    + rewrite bool_decide_eq_true_2 by reflexivity.
      destruct (counts !! k) as [n|] eqn:Hk; simpl.
      * now rewrite lookup_insert_eq.
      * now rewrite Hk.
    + rewrite bool_decide_eq_false_2 by congruence.
      destruct (counts !! s) as [n|] eqn:Hs.
      * rewrite lookup_insert_ne by assumption.
        destruct (counts !! k); simpl; f_equal; lia.
      * destruct (counts !! k); simpl; f_equal; lia.
Qed.

Lemma fold_count_step_lookup (issues : list Issue) (counts : gmap pystr Z)
    (k : pystr) :
  fold_left count_step issues counts !! k =
  (fun n => n + how_many (fun i => bool_decide (issue_severity i = VStr k)) issues)
    <$> counts !! k.
Proof.
  revert counts. unfold how_many.
  induction issues as [|issue issues IH]; intros counts; simpl.
  - destruct (counts !! k); simpl; f_equal; lia.
  - rewrite IH, count_step_lookup.
    destruct (counts !! k) as [n|]; simpl; [|reflexivity].
    f_equal. destruct (bool_decide _); simpl length; lia.
Qed.

Lemma count_issues_by_severity_level (issues : list Issue) (l : level) :
  count_issues_by_severity issues !! level_name l =
  Some (how_many (has_level l) issues).
Proof.
  unfold count_issues_by_severity. rewrite fold_count_step_lookup.
  destruct l; reflexivity.
Qed.

Lemma count_issues_by_severity_other (issues : list Issue) (k : pystr) :
  (forall l, k <> level_name l) ->
  count_issues_by_severity issues !! k = None.
Proof.
  intros Hk. unfold count_issues_by_severity. rewrite fold_count_step_lookup.
  replace (dict [("info", 0); ("warning", 0); ("error", 0)]%string !! k)
    with (@None Z); [reflexivity|].
  symmetry. unfold dict. simpl.
  rewrite !lookup_insert_ne, lookup_empty; [reflexivity| | |];
    intros <-; [apply (Hk Error)|apply (Hk Warning)|apply (Hk Info)]; reflexivity.
Qed.

Lemma how_many_known (issues : list Issue) :
  how_many (has_level Info) issues + how_many (has_level Warning) issues
  + how_many (has_level Error) issues = how_many known_severity issues.
Proof.
  unfold how_many, known_severity, has_level, level_name.
  induction issues as [|issue issues IH]; [reflexivity|].
  cbn [List.filter].
  destruct (issue_severity issue) as [| z | s].
  - rewrite !bool_decide_eq_false_2 by discriminate. exact IH.
  - rewrite !bool_decide_eq_false_2 by discriminate. exact IH.
  - destruct (decide (s = py "info")) as [->|Hi].
    { rewrite (bool_decide_eq_true_2 (VStr (py "info") = VStr (py "info")))
        by reflexivity.
      rewrite !bool_decide_eq_false_2 by (vm_compute; discriminate).
      cbn [orb length]. lia. }
    destruct (decide (s = py "warning")) as [->|Hw].
    { rewrite (bool_decide_eq_true_2 (VStr (py "warning") = VStr (py "warning")))
        by reflexivity.
      rewrite !bool_decide_eq_false_2 by (vm_compute; discriminate).
      cbn [orb length]. lia. }
    destruct (decide (s = py "error")) as [->|He].
    { rewrite (bool_decide_eq_true_2 (VStr (py "error") = VStr (py "error")))
        by reflexivity.
      rewrite !bool_decide_eq_false_2 by (vm_compute; discriminate).
      cbn [orb length]. lia. }
    rewrite !bool_decide_eq_false_2 by congruence. exact IH.
Qed.

Lemma how_many_le (p : Issue -> bool) (issues : list Issue) :
  how_many p issues <= Z.of_nat (length issues).
Proof.
  unfold how_many. pose proof (List.filter_length_le p issues). lia.
Qed.

(** C7, as the code has it: each level counts the issues whose severity,
    [warning] when the key is missing, is that level; an issue with any
    other severity is counted nowhere, so the counts add up to the number
    of issues with a known severity. *)
Theorem count_issues_by_severity_spec (issues : list Issue) :
  (forall l : level,
     count_issues_by_severity issues !! level_name l
     = Some (how_many (has_level l) issues)) /\
  (forall k : pystr,
     (forall l, k <> level_name l) ->
     count_issues_by_severity issues !! k = None) /\
  (forall issue : Issue,
     issue !! py "severity" = None -> has_level Warning issue = true) /\
  (forall issue : Issue,
     known_severity issue = false ->
     forall l, has_level l issue = false) /\
  tally_sum (count_issues_by_severity issues) = how_many known_severity issues /\
  tally_sum (count_issues_by_severity issues) <= Z.of_nat (length issues).
Proof.
  assert (Hsum : tally_sum (count_issues_by_severity issues)
                 = how_many known_severity issues).
  { pose proof (count_issues_by_severity_level issues Info) as Hi.
    pose proof (count_issues_by_severity_level issues Warning) as Hw.
    pose proof (count_issues_by_severity_level issues Error) as He.
    cbn [level_name] in Hi, Hw, He. unfold tally_sum.
    rewrite Hi, Hw, He. apply how_many_known. }
  split; [apply count_issues_by_severity_level|].
  split; [apply count_issues_by_severity_other|].
  split.
  { intros issue Hnone. unfold has_level, issue_severity, dict_get.
    replace (issue !! py "severity") with (@None pyval). reflexivity. }
  split.
  { intros issue Hk l. unfold known_severity in Hk.
    apply orb_false_iff in Hk as [Hk He]. apply orb_false_iff in Hk as [Hi Hw].
    destruct l; assumption. }
  split; [exact Hsum|].
  rewrite Hsum. apply how_many_le.
Qed.

(** C7, as stated, fails: an issue of severity [critical] is counted
    neither under [warning] nor anywhere else. *)
Lemma count_issues_by_severity_unknown_dropped :
  let issues : list Issue := [dict [("severity", VStr (py "critical"))]%string] in
  count_issues_by_severity issues !! py "warning" = Some 0 /\
  tally_sum (count_issues_by_severity issues) <> Z.of_nat (length issues).
Proof. split; [reflexivity|vm_compute; discriminate]. Qed.

(** ** The loop over the records *)

Section Loop.
Variable body : Z -> Record -> result (list Issue).

Lemma for_each_record_total (start : Z) (records : list Record) :
  Forall (fun record => forall idx, exists new, body idx record = Ok new) records ->
  exists all, for_each_record body start records = Ok all.
Proof.
  intros Htot. revert start.
  induction Htot as [|record records Hrec _ IH]; intros start; simpl.
  - now exists [].
  - destruct (Hrec start) as [new ->]. destruct (IH (start + 1)) as [more ->].
    now exists (new ++ more).
Qed.

(** What holds of the issues of every turn holds of the issues of the loop,
    with the row of the turn somewhere in the range of the loop. *)
Lemma for_each_record_Forall (P : Z -> Issue -> Prop) :
  (forall idx record new, body idx record = Ok new -> Forall (P idx) new) ->
  forall records start all,
    for_each_record body start records = Ok all ->
    Forall (fun issue =>
              exists j, start <= j < start + Z.of_nat (length records) /\ P j issue)
      all.
Proof.
  intros Hbody. induction records as [|record records IH]; intros start all; simpl.
  - intros [= <-]. constructor.
  - destruct (body start record) as [new|e] eqn:Hnew; [|discriminate]. simpl.
    destruct (for_each_record body (start + 1) records) as [more|e] eqn:Hmore;
      [|discriminate]. simpl.
    intros [= <-]. apply Forall_app. split.
    + apply Hbody in Hnew. eapply Forall_impl; [exact Hnew|].
      intros issue HP. exists start. split; [lia|exact HP].
    + eapply Forall_impl; [exact (IH _ _ Hmore)|].
      intros issue (j & Hj & HP). exists j. split; [lia|exact HP].
Qed.

Lemma issues_of_row_same (row : Z) (issues : list Issue) :
  Forall (fun issue => issue !! py "row" = Some (VInt row)) issues ->
  issues_of_row row issues = issues.
Proof.
  unfold issues_of_row. induction 1 as [|issue issues Hrow _ IH]; simpl.
  - reflexivity.
  - rewrite bool_decide_eq_true_2 by exact Hrow. now rewrite IH.
Qed.

Lemma issues_of_row_other (row : Z) (issues : list Issue) :
  Forall (fun issue => exists j, j <> row /\ issue !! py "row" = Some (VInt j))
    issues ->
  issues_of_row row issues = [].
Proof.
  unfold issues_of_row. induction 1 as [|issue issues (j & Hj & Hrow) _ IH]; simpl.
  - reflexivity.
  - rewrite bool_decide_eq_false_2; [exact IH|].
    rewrite Hrow. intros [= ->]. now apply Hj.
Qed.

Lemma issues_of_row_app (row : Z) (l1 l2 : list Issue) :
  issues_of_row row (l1 ++ l2) = issues_of_row row l1 ++ issues_of_row row l2.
Proof. unfold issues_of_row. apply List.filter_app. Qed.

Hypothesis body_stamps : stamps_row body.

Lemma for_each_record_rows (records : list Record) (start : Z) (all : list Issue) :
  for_each_record body start records = Ok all ->
  Forall (fun issue =>
            exists j, start <= j < start + Z.of_nat (length records) /\
                      issue !! py "row" = Some (VInt j))
    all.
Proof.
  apply (for_each_record_Forall
           (fun idx issue => issue !! py "row" = Some (VInt idx))).
  exact body_stamps.
Qed.

(** The issues of the loop that carry the row of the [i]-th record are the
    issues of that record's turn. *)
Lemma for_each_record_row (records : list Record) (start : Z) (all : list Issue)
    (i : nat) (record : Record) :
  for_each_record body start records = Ok all ->
  records !! i = Some record ->
  body (start + Z.of_nat i) record = Ok (issues_of_row (start + Z.of_nat i) all).
Proof.
  revert start all i.
  induction records as [|r records IH]; intros start all i; simpl.
  - intros _ Hi. discriminate.
  - destruct (body start r) as [new|e] eqn:Hnew; [|discriminate]. simpl.
    destruct (for_each_record body (start + 1) records) as [more|e] eqn:Hmore;
      [|discriminate]. simpl.
    intros [= <-] Hi. rewrite issues_of_row_app. destruct i as [|i]; simpl in Hi.
    + injection Hi as ->. rewrite Z.add_0_r.
      rewrite (issues_of_row_same start new (body_stamps _ _ _ Hnew)).
      rewrite (issues_of_row_other start more), app_nil_r; [exact Hnew|].
      eapply Forall_impl; [exact (for_each_record_rows _ _ _ Hmore)|].
      intros issue (j & Hj & Hrow). exists j. split; [lia|exact Hrow].
    + replace (start + Z.of_nat (S i)) with (start + 1 + Z.of_nat i) by lia.
      rewrite (issues_of_row_other _ new).
      * simpl. now apply IH.
      * eapply Forall_impl; [exact (body_stamps _ _ _ Hnew)|].
        intros issue Hrow. exists start. split; [lia|exact Hrow].
Qed.

End Loop.

(** ** The email validator *)

Lemma str_count_nonneg (s : pystr) (c : N) : 0 <= str_count s c.
Proof. induction s as [|x s IH]; simpl; [lia|]. destruct (x =? c)%N; lia. Qed.

Lemma str_split_length (s : pystr) (c : N) :
  Z.of_nat (length (str_split s c)) = str_count s c + 1.
Proof.
  induction s as [|x s IH]; simpl; [reflexivity|].
  destruct (x =? c)%N; simpl.
  - lia.
  - pose proof (str_count_nonneg s c).
    destruct (str_split s c) as [|piece pieces]; simpl in *; lia.
Qed.

(** After the count of separators has been checked to be one, the
    unpacking of the two pieces cannot fail. *)
Lemma str_split_one (s : pystr) (c : N) :
  str_count s c = 1 -> exists a b, str_split s c = [a; b].
Proof.
  intros H1. pose proof (str_split_length s c) as Hlen. rewrite H1 in Hlen.
  destruct (str_split s c) as [|a [|b [|x l]]]; simpl in Hlen; try lia.
  now exists a, b.
Qed.

Ltac split_body H :=
  repeat match type of H with
         | context [if ?b then _ else _] => destruct b eqn:?
         | context [match ?x with _ => _ end] => destruct x eqn:?
         end;
  try discriminate H.

Lemma email_rules_total (idx : Z) (record : Record) :
  exists new, email_rules idx record = Ok new.
Proof.
  unfold email_rules.
  destruct (negb (nonempty _)); [eauto|].
  destruct (str_count _ _ =? 1) eqn:Hcount; cbn [negb]; [|eauto].
  apply Z.eqb_eq, str_split_one in Hcount as (a & b & ->).
  repeat match goal with |- context [if ?b then _ else _] => destruct b end; eauto.
Qed.

Lemma email_rules_stamps : stamps_row email_rules.
Proof.
  intros idx record issues H. unfold email_rules in H. split_body H;
    injection H as <-; repeat constructor.
Qed.

Lemma email_rules_severity (idx : Z) (record : Record) (issues : list Issue) :
  email_rules idx record = Ok issues -> Forall warning_or_unset issues.
Proof.
  intros H. unfold email_rules in H. split_body H;
    injection H as <-; repeat constructor; solve [now left | now right].
Qed.

(** A record whose email has no or several [@]: the issue of the rule,
    whose text sits under the key [issue]. *)
Lemma email_rules_at_sign (idx : Z) (record : Record) :
  let email := strip (dict_get record "email" []) in
  nonempty email = true ->
  str_count email (chr "@") <> 1 ->
  email_rules idx record =
  Ok [dict [("row", VInt idx);
            ("field", VStr (py "email"));
            ("value", VStr email);
            ("issue", VStr (py "missing or multiple @"));
            ("severity", VStr (py "warning"))]%string].
Proof.
  intros email Hne Hcount. unfold email_rules. fold email. rewrite Hne.
  apply Z.eqb_neq in Hcount. now rewrite Hcount.
Qed.

Lemma check_invalid_emails_total (records : list Record) :
  exists issues, check_invalid_emails records = Ok issues.
Proof.
  apply for_each_record_total, Forall_forall. intros record _ idx.
  apply email_rules_total.
Qed.

(** In a list of records, the record at position [i] with such an email
    gets exactly that one issue, at row [i + 1]. *)
Lemma check_invalid_emails_at_sign (records : list Record) (i : nat)
    (record : Record) :
  let email := strip (dict_get record "email" []) in
  records !! i = Some record ->
  nonempty email = true ->
  str_count email (chr "@") <> 1 ->
  exists issues,
    check_invalid_emails records = Ok issues /\
    issues_of_row (1 + Z.of_nat i) issues =
    [dict [("row", VInt (1 + Z.of_nat i));
           ("field", VStr (py "email"));
           ("value", VStr email);
           ("issue", VStr (py "missing or multiple @"));
           ("severity", VStr (py "warning"))]%string].
Proof.
  intros email Hi Hne Hcount.
  destruct (check_invalid_emails_total records) as [issues Hall].
  exists issues. split; [exact Hall|].
  pose proof (for_each_record_row _ email_rules_stamps _ _ _ _ _ Hall Hi) as Hrow.
  rewrite (email_rules_at_sign _ _ Hne Hcount) in Hrow. now injection Hrow.
Qed.

(** C3, on the code: the record [{email: "bob@@x.com"}] gets one issue, of
    field [email] and severity [warning]; its text is stored under the key
    [issue] and the issue has no [reason]. *)
Theorem check_invalid_emails_bob :
  exists issue : Issue,
    check_invalid_emails [dict [("email", py "bob@@x.com")]%string] = Ok [issue] /\
    issue !! py "field" = Some (VStr (py "email")) /\
    issue !! py "severity" = Some (VStr (py "warning")) /\
    issue !! py "issue" = Some (VStr (py "missing or multiple @")) /\
    issue !! py "reason" = None.
Proof. eexists. split; [reflexivity|]. repeat split. Qed.

(** ** The age validator *)

Lemma int_unsigned_error (R : Runtime) (s : list intchar) (e : exn) :
  int_unsigned R s = Raise e -> e = ValueError.
Proof.
  unfold int_unsigned. intros H. split_body H; now injection H.
Qed.

Lemma py_int_error (R : Runtime) (s : pystr) (e : exn) :
  py_int R s = Raise e -> e = ValueError.
Proof.
  unfold py_int. intros H.
  destruct (int_skip_space _) as [|[| neg | | d |] rest];
    try (now apply int_unsigned_error in H).
  destruct (int_unsigned R rest) eqn:Hu; simpl in H; [discriminate|].
  injection H as <-. now apply int_unsigned_error in Hu.
Qed.

Lemma age_rules_stamps (R : Runtime) : stamps_row (age_rules R).
Proof.
  intros idx record issues H. unfold age_rules in H.
  destruct (negb (nonempty _)); [injection H as <-; repeat constructor|].
  destruct (negb (isdigit R _)); [injection H as <-; repeat constructor|].
  destruct (py_int R _) as [age|e]; [|discriminate]. simpl in H.
  destruct (_ || _); injection H as <-; repeat constructor.
Qed.

Lemma age_rules_severity (R : Runtime) (idx : Z) (record : Record)
    (issues : list Issue) :
  age_rules R idx record = Ok issues -> Forall warning_or_unset issues.
Proof.
  intros H. unfold age_rules in H.
  destruct (negb (nonempty _)); [injection H as <-; repeat constructor; now left|].
  destruct (negb (isdigit R _)); [injection H as <-; repeat constructor; now left|].
  destruct (py_int R _) as [age|e]; [|discriminate]. simpl in H.
  destruct (_ || _); injection H as <-; repeat constructor; now left.
Qed.

(** The age validator returns on a record exactly when the conversion of
    an all-digit age does. *)
Lemma age_rules_total (R : Runtime) (idx : Z) (record : Record) :
  let age_raw := strip (dict_get record "age" []) in
  (isdigit R age_raw = true -> exists age, py_int R age_raw = Ok age) ->
  exists new, age_rules R idx record = Ok new.
Proof.
  intros age_raw Hint. unfold age_rules. fold age_raw.
  destruct (negb (nonempty _)); [eauto|].
  destruct (isdigit R age_raw); cbn [negb]; [|eauto].
  destruct Hint as [age ->]; [reflexivity|]. simpl.
  destruct (_ || _); eauto.
Qed.

Lemma check_invalid_ages_total (R : Runtime) (records : list Record) :
  Forall (fun record : Record =>
            let age_raw := strip (dict_get record "age" []) in
            isdigit R age_raw = true -> exists age, py_int R age_raw = Ok age)
    records ->
  exists issues, check_invalid_ages R records = Ok issues.
Proof.
  intros H. apply for_each_record_total.
  eapply Forall_impl; [exact H|]. intros record Hint idx.
  now apply age_rules_total.
Qed.

(** A digit that is no decimal: [isdigit] lets it through and [int]
    refuses it. *)
Lemma age_rules_digit_not_decimal (R : Runtime) (idx : Z) (c : N) :
  (128 <= c)%N ->
  py_isspace c = false ->
  unicode_isdigit R c = true ->
  unicode_decimal R c = None ->
  age_rules R idx {[ py "age" := [c] ]} = Raise ValueError.
Proof.
  intros Hc Hsp Hdig Hdec. unfold age_rules.
  assert (Hget : dict_get ({[ py "age" := [c] ]} : gmap (list N) (list N)) "age" []
                 = [c]).
  { unfold dict_get. now rewrite lookup_singleton_eq. }
  rewrite Hget.
  assert (Hstrip : strip [c] = [c]).
  { unfold strip, rstrip. cbn [lstrip]. rewrite Hsp. cbn [rev app lstrip].
    now rewrite Hsp. }
  rewrite Hstrip. cbn [nonempty negb].
  assert (Hlt128 : (c <? 128)%N = false) by (apply N.ltb_ge; lia).
  assert (Hlt127 : (c <? 127)%N = false) by (apply N.ltb_ge; lia).
  unfold isdigit, isdigit_char. cbn [nonempty forallb andb].
  rewrite Hlt128, Hdig. cbn [andb negb].
  unfold py_int, int_class, decimal_value. cbn [map].
  rewrite Hlt127, Hlt128, Hsp, Hdec. reflexivity.
Qed.

(** C1, on the code: the age [U+00B2] (superscript two) is all digits for
    [isdigit], and the conversion raises [ValueError] out of the validator. *)
Theorem check_invalid_ages_raises :
  isdigit Sample.runtime [178%N] = true /\
  py_int Sample.runtime [178%N] = Raise ValueError /\
  check_invalid_ages Sample.runtime [{[ py "age" := [178%N] ]}] = Raise ValueError.
Proof. repeat split. Qed.

(** ** The country validator *)

Lemma country_rules_total (R : Runtime) (idx : Z) (record : Record) :
  exists new, country_rules R idx record = Ok new.
Proof. unfold country_rules. destruct (negb _); eauto. Qed.

Lemma country_rules_stamps (R : Runtime) : stamps_row (country_rules R).
Proof.
  intros idx record issues H. unfold country_rules in H.
  destruct (negb _); injection H as <-; repeat constructor.
Qed.

Lemma country_rules_severity (R : Runtime) (idx : Z) (record : Record)
    (issues : list Issue) :
  country_rules R idx record = Ok issues -> Forall warning_or_unset issues.
Proof.
  intros H. unfold country_rules in H.
  destruct (negb _); injection H as <-; repeat constructor; now left.
Qed.

Lemma check_invalid_countries_total (R : Runtime) (records : list Record) :
  exists issues, check_invalid_countries R records = Ok issues.
Proof.
  apply for_each_record_total, Forall_forall. intros record _ idx.
  apply country_rules_total.
Qed.

(** ** The signup date validator *)

Lemma make_date_error (y m d : Z) (e : exn) :
  make_date y m d = Raise e -> e = ValueError.
Proof. unfold make_date. destruct (_ && _); [discriminate|]. now intros [= <-]. Qed.

Lemma found_fields_error (R : Runtime) (groups : list (directive * pystr))
    (y m d : Z) (e : exn) :
  found_fields R groups y m d = Raise e -> e = ValueError.
Proof.
  revert y m d. induction groups as [|[dir tok] groups IH]; intros y m d; simpl.
  - discriminate.
  - destruct dir; (destruct (py_int R tok) as [v|e'] eqn:Hint; simpl;
      [apply IH | intros [= <-]; now apply py_int_error in Hint]).
Qed.

Lemma strptime_error (R : Runtime) (data_string format : pystr) (e : exn) :
  strptime R data_string format = Raise e -> e = ValueError.
Proof.
  unfold strptime.
  destruct (format_items format) as [items|]; [|now intros [= <-]].
  destruct (regex_match R items data_string) as [[groups remaining]|];
    [|now intros [= <-]].
  destruct (nonempty remaining); [now intros [= <-]|].
  destruct (found_fields R groups 1900 1 1) as [ymd|e'] eqn:Hf; simpl.
  - apply make_date_error.
  - intros [= <-]. now apply found_fields_error in Hf.
Qed.

(** The loop over the formats never raises, and keeps the first parse. *)
Lemma parse_date_accepted (R : Runtime) (raw_date : pystr) :
  parse_date R raw_date accepted_formats = Ok (first_parse R raw_date).
Proof.
  unfold accepted_formats, first_parse. cbn [parse_date].
  destruct (strptime R raw_date (py "%d/%m/%Y")) as [d|e] eqn:H1; [reflexivity|].
  apply strptime_error in H1 as ->.
  destruct (strptime R raw_date (py "%y/%m/%d")) as [d|e] eqn:H2; [reflexivity|].
  now apply strptime_error in H2 as ->.
Qed.

Lemma signup_date_rules_total (R : Runtime) (idx : Z) (record : Record) :
  exists new, signup_date_rules R idx record = Ok new.
Proof.
  unfold signup_date_rules. destruct (negb _); [eauto|].
  rewrite parse_date_accepted. simpl.
  destruct (first_parse R _) as [d|]; [|eauto]. destruct (date_gt _ _); eauto.
Qed.

Lemma signup_date_rules_stamps (R : Runtime) : stamps_row (signup_date_rules R).
Proof.
  intros idx record issues H. unfold signup_date_rules in H.
  destruct (negb _); [injection H as <-; repeat constructor|].
  rewrite parse_date_accepted in H. simpl in H.
  destruct (first_parse R _) as [d|]; [|injection H as <-; repeat constructor].
  destruct (date_gt _ _); injection H as <-; repeat constructor.
Qed.

Lemma signup_date_rules_severity (R : Runtime) (idx : Z) (record : Record)
    (issues : list Issue) :
  signup_date_rules R idx record = Ok issues -> Forall warning_or_unset issues.
Proof.
  intros H. unfold signup_date_rules in H.
  destruct (negb _); [injection H as <-; repeat constructor; now left|].
  rewrite parse_date_accepted in H. simpl in H.
  destruct (first_parse R _) as [d|];
    [|injection H as <-; repeat constructor; now left].
  destruct (date_gt _ _); injection H as <-; repeat constructor; now left.
Qed.

Lemma check_invalid_signup_dates_total (R : Runtime) (records : list Record) :
  exists issues, check_invalid_signup_dates R records = Ok issues.
Proof.
  apply for_each_record_total, Forall_forall. intros record _ idx.
  apply signup_date_rules_total.
Qed.

(** The date of the example parses under the first format, whatever the
    runtime. *)
Lemma strptime_2099 (R : Runtime) :
  strptime R (py "31/01/2099") (py "%d/%m/%Y") = Ok (mkdate 2099 1 31).
Proof. reflexivity. Qed.

(** C8: in a run in which the signup date validator returns, a record
    with a non-empty signup date is parsed with the two formats in order;
    no parse gives the one issue "Invalid date format", a parse after today
    the one issue "signup_date is in the future", any other parse no issue;
    "31/01/2099" parses under the first format. *)
Theorem check_invalid_signup_dates_spec (R : Runtime) (records : list Record)
    (issues : list Issue) (i : nat) (record : Record) :
  let raw_date := strip (dict_get record "signup_date" []) in
  check_invalid_signup_dates R records = Ok issues ->
  records !! i = Some record ->
  nonempty raw_date = true ->
  parse_date R raw_date [py "%d/%m/%Y"; py "%y/%m/%d"]
  = Ok (first_parse R raw_date) /\
  (first_parse R raw_date = None ->
   issues_of_row (1 + Z.of_nat i) issues =
   [dict [("row", VInt (1 + Z.of_nat i));
          ("field", VStr (py "signup_date"));
          ("value", VStr raw_date);
          ("reason", VStr (py "Invalid date format"));
          ("severity", VStr (py "warning"))]%string]) /\
  (forall d, first_parse R raw_date = Some d ->
             date_gt d (today R) = true ->
   issues_of_row (1 + Z.of_nat i) issues =
   [dict [("row", VInt (1 + Z.of_nat i));
          ("field", VStr (py "signup_date"));
          ("value", VStr raw_date);
          ("reason", VStr (py "signup_date is in the future"));
          ("severity", VStr (py "warning"))]%string]) /\
  (forall d, first_parse R raw_date = Some d ->
             date_gt d (today R) = false ->
   issues_of_row (1 + Z.of_nat i) issues = []) /\
  (raw_date = py "31/01/2099" ->
   first_parse R raw_date = Some (mkdate 2099 1 31)).
Proof.
  intros raw_date Hall Hi Hne.
  split; [apply parse_date_accepted|].
  pose proof (for_each_record_row _ (signup_date_rules_stamps R)
                _ _ _ _ _ Hall Hi) as Hrow.
  unfold signup_date_rules in Hrow. fold raw_date in Hrow.
  rewrite Hne, parse_date_accepted in Hrow. cbn [negb] in Hrow.
  repeat split.
  - intros Hnone. rewrite Hnone in Hrow. now injection Hrow.
  - intros d Hd Hgt. rewrite Hd in Hrow. simpl in Hrow. rewrite Hgt in Hrow.
    now injection Hrow.
  - intros d Hd Hgt. rewrite Hd in Hrow. simpl in Hrow. rewrite Hgt in Hrow.
    now injection Hrow.
  - intros ->. unfold first_parse. now rewrite strptime_2099.
Qed.

Lemma check_invalid_signup_dates_spec_witness :
  let record : Record := dict [("signup_date", py "31/01/2099")]%string in
  let raw_date := strip (dict_get record "signup_date" []) in
  exists issues,
    check_invalid_signup_dates Sample.runtime [record] = Ok issues /\
    issues_of_row 1 issues =
    [dict [("row", VInt 1);
           ("field", VStr (py "signup_date"));
           ("value", VStr raw_date);
           ("reason", VStr (py "signup_date is in the future"));
           ("severity", VStr (py "warning"))]%string].
Proof.
  intros record raw_date.
  destruct (check_invalid_signup_dates_total Sample.runtime [record])
    as [issues Hall].
  exists issues. split; [exact Hall|].
  destruct (check_invalid_signup_dates_spec Sample.runtime [record] issues
              0 record Hall eq_refl eq_refl)
    as (_ & _ & Hfuture & _ & Hparse).
  exact (Hfuture _ (Hparse eq_refl) eq_refl).
Defined.

(** ** Absent and empty fields *)

Lemma for_each_record_ext (body : Z -> Record -> result (list Issue))
    (rs rs' : list Record) (start : Z) :
  Forall2 (fun r r' => forall idx, body idx r = body idx r') rs rs' ->
  for_each_record body start rs = for_each_record body start rs'.
Proof.
  intros H. revert start. induction H as [|r r' rs rs' Hr _ IH]; intros start.
  - reflexivity.
  - simpl. now rewrite Hr, IH.
Qed.

Lemma email_rules_same_field (r r' : Record) (idx : Z) :
  same_field "email" r r' -> email_rules idx r = email_rules idx r'.
Proof. unfold same_field, email_rules. now intros ->. Qed.

Lemma age_rules_same_field (R : Runtime) (r r' : Record) (idx : Z) :
  same_field "age" r r' -> age_rules R idx r = age_rules R idx r'.
Proof. unfold same_field, age_rules. now intros ->. Qed.

Lemma signup_date_rules_same_field (R : Runtime) (r r' : Record) (idx : Z) :
  same_field "signup_date" r r' ->
  signup_date_rules R idx r = signup_date_rules R idx r'.
Proof. unfold same_field, signup_date_rules. now intros ->. Qed.

(** A missing field and an empty one give the same [record.get(field, "")]. *)
Lemma same_field_absent (field : string) (r : Record) :
  r !! py field = None -> same_field field r (<[py field := []]> r).
Proof.
  intros Hnone. unfold same_field, dict_get.
  now rewrite Hnone, lookup_insert_eq.
Qed.

Lemma resolve_country_absent_or_empty (R : Runtime) (value : option pystr) :
  value = None \/ value = Some [] ->
  opt_truthy (resolve_country R value) = false.
Proof. now intros [-> | ->]. Qed.

(** C5, as the code has it: the email, age and signup date validators see
    a missing field as an empty one; the country validator reads the field
    without a default, and the issue of an unresolved country carries the
    raw value untouched, which is [None] for a missing field and the empty
    string for an empty one. *)
Theorem absent_field_spec (R : Runtime) :
  (forall rs rs',
     Forall2 (same_field "email") rs rs' ->
     check_invalid_emails rs = check_invalid_emails rs') /\
  (forall rs rs',
     Forall2 (same_field "age") rs rs' ->
     check_invalid_ages R rs = check_invalid_ages R rs') /\
  (forall rs rs',
     Forall2 (same_field "signup_date") rs rs' ->
     check_invalid_signup_dates R rs = check_invalid_signup_dates R rs') /\
  (forall (records : list Record) (i : nat) (record : Record),
     records !! i = Some record ->
     opt_truthy (resolve_country R (record !! py "country")) = false ->
     exists issues,
       check_invalid_countries R records = Ok issues /\
       issues_of_row (1 + Z.of_nat i) issues =
       [dict [("row", VInt (1 + Z.of_nat i));
              ("field", VStr (py "country"));
              ("value", opt_val (record !! py "country"));
              ("reason", VStr (py "country missing or null"));
              ("severity", VStr (py "warning"))]%string]) /\
  (forall record : Record,
     record !! py "country" = None \/ record !! py "country" = Some [] ->
     opt_truthy (resolve_country R (record !! py "country")) = false) /\
  opt_val None = VNone /\ opt_val (Some []) = VStr [].
Proof.
  split; [|split; [|split; [|split; [|split; [|split; reflexivity]]]]].
  - intros rs rs' H. apply for_each_record_ext.
    eapply Forall2_impl; [exact H|]. intros r r' Hr idx.
    now apply email_rules_same_field.
  - intros rs rs' H. apply for_each_record_ext.
    eapply Forall2_impl; [exact H|]. intros r r' Hr idx.
    now apply age_rules_same_field.
  - intros rs rs' H. apply for_each_record_ext.
    eapply Forall2_impl; [exact H|]. intros r r' Hr idx.
    now apply signup_date_rules_same_field.
  - intros records i record Hi Hres.
    destruct (check_invalid_countries_total R records) as [issues Hall].
    exists issues. split; [exact Hall|].
    pose proof (for_each_record_row _ (country_rules_stamps R)
                  _ _ _ _ _ Hall Hi) as Hrow.
    unfold country_rules in Hrow. rewrite Hres in Hrow. now injection Hrow.
  - intros record. apply resolve_country_absent_or_empty.
Qed.

Lemma absent_field_spec_witness :
  let absent : Record := ∅ in
  let empty : Record := {[ py "email" := [] ]} in
  check_invalid_emails [absent] = check_invalid_emails [empty] /\
  exists issues,
    check_invalid_countries Sample.runtime [absent] = Ok issues /\
    issues_of_row (1 + Z.of_nat 0) issues =
    [dict [("row", VInt (1 + Z.of_nat 0));
           ("field", VStr (py "country"));
           ("value", opt_val (absent !! py "country"));
           ("reason", VStr (py "country missing or null"));
           ("severity", VStr (py "warning"))]%string].
Proof.
  intros absent empty.
  destruct (absent_field_spec Sample.runtime) as (Hemail & _ & _ & Hcountry & _).
  split.
  - apply Hemail. constructor; [reflexivity|constructor].
  - exact (Hcountry [absent] 0%nat absent eq_refl
             (resolve_country_absent_or_empty Sample.runtime _
                (or_introl eq_refl))).
Defined.

(** C5, as stated, fails for the country validator: a record without the
    field and a record with the field empty give different issues. *)
Lemma check_invalid_countries_absent_differs :
  same_field "country" ∅ {[ py "country" := [] ]} /\
  check_invalid_countries Sample.runtime [∅]
  <> check_invalid_countries Sample.runtime [{[ py "country" := [] ]}].
Proof.
  split; [reflexivity|]. intros H.
  apply (f_equal (fun r : result (list Issue) =>
                    match r with
                    | Ok [issue] => issue !! py "value"
                    | _ => None
                    end)) in H.
  vm_compute in H. discriminate H.
Qed.

(** ** All checks together *)

Lemma for_each_record_severity (body : Z -> Record -> result (list Issue))
    (records : list Record) (start : Z) (all : list Issue) :
  (forall idx record new, body idx record = Ok new -> Forall warning_or_unset new) ->
  for_each_record body start records = Ok all ->
  Forall warning_or_unset all.
Proof.
  intros Hbody Hall.
  eapply Forall_impl;
    [exact (for_each_record_Forall body (fun _ => warning_or_unset) Hbody _ _ _ Hall)|].
  now intros issue (j & _ & H).
Qed.

(** Whatever the records, an issue that comes out of the checks has
    severity [warning] or no severity at all. *)
Lemma run_all_checks_severity (R : Runtime) (records : list Record)
    (issues : list Issue) :
  run_all_checks R records = Ok issues -> Forall warning_or_unset issues.
Proof.
  unfold run_all_checks. intros H.
  destruct (check_invalid_emails records) as [emails|] eqn:He; [|discriminate].
  destruct (check_invalid_ages R records) as [ages|] eqn:Ha; [|discriminate].
  destruct (check_invalid_countries R records) as [countries|] eqn:Hc;
    [|discriminate].
  destruct (check_invalid_signup_dates R records) as [dates|] eqn:Hd;
    [|discriminate].
  injection H as <-. rewrite !Forall_app. repeat split.
  - exact (for_each_record_severity _ _ _ _ email_rules_severity He).
  - exact (for_each_record_severity _ _ _ _ (age_rules_severity R) Ha).
  - exact (for_each_record_severity _ _ _ _ (country_rules_severity R) Hc).
  - exact (for_each_record_severity _ _ _ _ (signup_date_rules_severity R) Hd).
Qed.

(** The checks return as soon as the age validator does. *)
Lemma run_all_checks_total (R : Runtime) (records : list Record) (ages : list Issue) :
  check_invalid_ages R records = Ok ages ->
  exists issues, run_all_checks R records = Ok issues.
Proof.
  intros Ha. unfold run_all_checks.
  destruct (check_invalid_emails_total records) as [emails ->].
  destruct (check_invalid_countries_total R records) as [countries Hc].
  destruct (check_invalid_signup_dates_total R records) as [dates Hd].
  simpl. rewrite Ha. simpl. rewrite Hc. simpl. rewrite Hd. simpl. eauto.
Qed.

Lemma warning_or_unset_severity (issue : Issue) :
  warning_or_unset issue -> issue_severity issue = VStr (py "warning").
Proof. unfold issue_severity, dict_get. now intros [-> | ->]. Qed.

Lemma warning_only_filter_error (issues : list Issue) :
  Forall warning_or_unset issues ->
  filter_issues_by_severity issues (py "error") = Ok [].
Proof.
  intros H. change (py "error") with (level_name Error).
  rewrite filter_issues_by_severity_level. f_equal.
  induction H as [|issue issues Hw _ IH]; [reflexivity|].
  cbn [List.filter]. rewrite (warning_or_unset_severity _ Hw). exact IH.
Qed.

Lemma warning_only_how_many (issues : list Issue) :
  Forall warning_or_unset issues ->
  how_many (has_level Info) issues = 0 /\
  how_many (has_level Warning) issues = Z.of_nat (length issues) /\
  how_many (has_level Error) issues = 0.
Proof.
  unfold how_many, has_level.
  induction 1 as [|issue issues Hw _ (IHi & IHw & IHe)]; [now repeat split|].
  cbn [List.filter]. rewrite (warning_or_unset_severity _ Hw).
  rewrite (bool_decide_eq_true_2 (VStr (py "warning") = VStr (level_name Warning)))
    by reflexivity.
  rewrite !bool_decide_eq_false_2 by (vm_compute; discriminate).
  cbn [length]. repeat split; lia.
Qed.

(** What C9 says holds of every run in which the checks return: only
    warnings, no [info] and no [error] in the tally, nothing left at the
    threshold [error], and exit code 0. *)
Lemma main_warning_only (R : Runtime) (records : list Record)
    (all_issues : list Issue) (flag : bool) :
  run_all_checks R records = Ok all_issues ->
  Forall warning_or_unset all_issues /\
  count_issues_by_severity all_issues !! py "info" = Some 0 /\
  count_issues_by_severity all_issues !! py "error" = Some 0 /\
  filter_issues_by_severity all_issues (py "error") = Ok [] /\
  main R {| severity_threshold := py "error"; fail_on_warning := flag |} records
  = Ok {| out_summary := build_summary records all_issues;
          out_issues := [];
          out_code := 0 |}.
Proof.
  intros Hall. pose proof (run_all_checks_severity _ _ _ Hall) as Hsev.
  destruct (warning_only_how_many _ Hsev) as (Hi & _ & He).
  pose proof (warning_only_filter_error _ Hsev) as Hf.
  split; [exact Hsev|].
  split; [rewrite <- Hi; apply (count_issues_by_severity_level _ Info)|].
  split; [rewrite <- He; apply (count_issues_by_severity_level _ Error)|].
  split; [exact Hf|].
  unfold main. rewrite Hall. cbn [mbind result_bind severity_threshold].
  rewrite Hf. cbn [mbind result_bind]. unfold determine_exit_code.
  cbn [severity_threshold]. 
  destruct (total_records _ =? 0); [reflexivity|].
  change (filter_issues_by_severity [] (py "error")) with (@Ok (list Issue) []).
  reflexivity.
Qed.

(** C9, on the code: with the age [U+00B2] the checks raise, so the run
    at threshold [error] ends in the handler with exit code 30, not 0. *)
Theorem exit_status_age_digit :
  let args := {| severity_threshold := py "error"; fail_on_warning := false |} in
  let records : list Record := [{[ py "age" := [178%N] ]}] in
  run_all_checks Sample.runtime records = Raise ValueError /\
  main Sample.runtime args records = Raise ValueError /\
  exit_status Sample.runtime args records = 30.
Proof. repeat split. Qed.

(** ** The run *)

Lemma determine_exit_code_returns (summary : Summary) (issues : list Issue)
    (args : Args) (t : level) :
  severity_threshold args = level_name t ->
  exists code, determine_exit_code summary issues args = Ok code.
Proof.
  intros Ht. unfold determine_exit_code. rewrite Ht.
  destruct (total_records summary =? 0); [eauto|].
  rewrite filter_issues_by_severity_level. cbn [mbind result_bind].
  destruct (nonempty_list _ && _); [eauto|].
  destruct (nonempty_list _); eauto.
Qed.

(** With a level of the command line as threshold, [main] returns as soon
    as the checks do: the summary is built from all the issues, the issues
    handed on are the filtered ones, and the exit code is computed from
    the filtered ones. *)
Lemma main_returns (R : Runtime) (args : Args) (records : list Record)
    (t : level) (all_issues : list Issue) :
  severity_threshold args = level_name t ->
  run_all_checks R records = Ok all_issues ->
  exists filtered code,
    filter_issues_by_severity all_issues (severity_threshold args) = Ok filtered /\
    determine_exit_code (build_summary records all_issues) filtered args = Ok code /\
    main R args records
    = Ok {| out_summary := build_summary records all_issues;
            out_issues := filtered;
            out_code := code |}.
Proof.
  intros Ht Hall.
  destruct (determine_exit_code_returns (build_summary records all_issues)
              (List.filter
                 (fun issue => level_rank t <=? severity_rank_of (issue_severity issue))
                 all_issues) args t Ht) as [code Hcode].
  eexists; exists code. rewrite Ht at 1. rewrite filter_issues_by_severity_level.
  split; [reflexivity|]. split; [exact Hcode|].
  unfold main. rewrite Hall. cbn [mbind result_bind]. rewrite Ht at 1.
  rewrite filter_issues_by_severity_level. cbn [mbind result_bind].
  now rewrite Hcode.
Qed.

(** C4, as the code has it: the summary of a run counts all the issues of
    the checks, in [total_issues] and in [severity_counts] alike; the
    severity filter plays no part in it. *)
Theorem main_summary_spec (R : Runtime) (args : Args) (records : list Record)
    (t : level) (all_issues : list Issue) :
  severity_threshold args = level_name t ->
  run_all_checks R records = Ok all_issues ->
  exists out,
    main R args records = Ok out /\
    total_records (out_summary out) = Z.of_nat (length records) /\
    total_issues (out_summary out) = Z.of_nat (length all_issues) /\
    severity_counts (out_summary out) = count_issues_by_severity all_issues /\
    (forall l : level,
       severity_counts (out_summary out) !! level_name l
       = Some (how_many (has_level l) all_issues)) /\
    filter_issues_by_severity all_issues (severity_threshold args)
    = Ok (out_issues out).
Proof.
  intros Ht Hall.
  destruct (main_returns R args records t all_issues Ht Hall)
    as (filtered & code & Hf & _ & Hmain).
  eexists. split; [exact Hmain|]. cbn [out_summary out_issues].
  repeat split; try exact Hf.
  intros l. apply count_issues_by_severity_level.
Qed.

Lemma main_summary_spec_witness :
  let args := {| severity_threshold := level_name Error; fail_on_warning := false |} in
  let records : list Record := [∅] in
  exists all_issues,
    run_all_checks Sample.runtime records = Ok all_issues /\
    exists out,
      main Sample.runtime args records = Ok out /\
      total_records (out_summary out) = Z.of_nat (length records) /\
      total_issues (out_summary out) = Z.of_nat (length all_issues) /\
      severity_counts (out_summary out) = count_issues_by_severity all_issues /\
      (forall l : level,
         severity_counts (out_summary out) !! level_name l
         = Some (how_many (has_level l) all_issues)) /\
      filter_issues_by_severity all_issues (severity_threshold args)
      = Ok (out_issues out).
Proof.
  intros args records.
  destruct (check_invalid_ages_total Sample.runtime records) as [ages Hages].
  { constructor; [|constructor]. intros age_raw Hdigit.
    vm_compute in Hdigit. discriminate Hdigit. }
  destruct (run_all_checks_total Sample.runtime records ages Hages)
    as [all_issues Hall].
  exists all_issues. split; [exact Hall|].
  exact (main_summary_spec Sample.runtime args records Error all_issues
           eq_refl Hall).
Defined.

(** C4, as stated, fails: one record without fields gives four warnings;
    at threshold [error] none is reported, yet the summary counts four. *)
Lemma main_summary_counts_unfiltered :
  let args := {| severity_threshold := py "error"; fail_on_warning := false |} in
  exists out,
    main Sample.runtime args [∅] = Ok out /\
    out_issues out = [] /\
    count_issues_by_severity (out_issues out) !! py "warning" = Some 0 /\
    severity_counts (out_summary out) !! py "warning" = Some 4.
Proof.
  intros args. eexists. split; [vm_compute; reflexivity|].
  repeat split.
Qed.

(** C10: filtering an already filtered list at the same threshold changes
    nothing; so in a run the blocking issues of [determine_exit_code] are
    the issues [main] filtered. *)
Theorem filter_issues_by_severity_idempotent :
  (forall (issues : list Issue) (t : level),
     exists kept,
       filter_issues_by_severity issues (level_name t) = Ok kept /\
       filter_issues_by_severity kept (level_name t) = Ok kept) /\
  (forall (R : Runtime) (args : Args) (records : list Record) (t : level)
          (all_issues : list Issue),
     severity_threshold args = level_name t ->
     run_all_checks R records = Ok all_issues ->
     exists out,
       main R args records = Ok out /\
       filter_issues_by_severity all_issues (severity_threshold args)
       = Ok (out_issues out) /\
       filter_issues_by_severity (out_issues out) (severity_threshold args)
       = Ok (out_issues out) /\
       determine_exit_code (out_summary out) (out_issues out) args
       = Ok (out_code out)).
Proof.
  split.
  - intros issues t. eexists. split.
    + apply filter_issues_by_severity_level.
    + rewrite filter_issues_by_severity_level. now rewrite filter_filter_same.
  - intros R args records t all_issues Ht Hall.
    destruct (main_returns R args records t all_issues Ht Hall)
      as (filtered & code & Hf & Hcode & Hmain).
    eexists. split; [exact Hmain|]. cbn [out_summary out_issues out_code].
    split; [exact Hf|]. split; [|exact Hcode].
    now apply (filter_issues_by_severity_twice all_issues).
Qed.

Lemma filter_issues_by_severity_idempotent_witness :
  let args := {| severity_threshold := level_name Warning; fail_on_warning := true |} in
  let records : list Record := [∅] in
  exists all_issues,
    run_all_checks Sample.runtime records = Ok all_issues /\
    exists out,
      main Sample.runtime args records = Ok out /\
      filter_issues_by_severity all_issues (severity_threshold args)
      = Ok (out_issues out) /\
      filter_issues_by_severity (out_issues out) (severity_threshold args)
      = Ok (out_issues out) /\
      determine_exit_code (out_summary out) (out_issues out) args
      = Ok (out_code out).
Proof.
  intros args records.
  destruct (check_invalid_ages_total Sample.runtime records) as [ages Hages].
  { constructor; [|constructor]. intros age_raw Hdigit.
    vm_compute in Hdigit. discriminate Hdigit. }
  destruct (run_all_checks_total Sample.runtime records ages Hages)
    as [all_issues Hall].
  exists all_issues. split; [exact Hall|].
  exact (proj2 filter_issues_by_severity_idempotent
           Sample.runtime args records Warning all_issues eq_refl Hall).
Defined.

(** * Further properties *)

(** ** More on the severity filter and the tally *)

Lemma severity_rank_name (s : pystr) (r : Z) :
  SEVERITY_RANK !! s = Some r -> exists l, s = level_name l /\ r = level_rank l.
Proof.
  unfold SEVERITY_RANK, dict. simpl. intros H.
  destruct (decide (s = py "error")) as [->|He].
  { exists Error. split; [reflexivity|]. vm_compute in H. now injection H. }
  destruct (decide (s = py "warning")) as [->|Hw].
  { exists Warning. split; [reflexivity|]. vm_compute in H. now injection H. }
  destruct (decide (s = py "info")) as [->|Hi].
  { exists Info. split; [reflexivity|]. vm_compute in H. now injection H. }
  rewrite !lookup_insert_ne, lookup_empty in H by congruence. discriminate.
Qed.

Lemma severity_rank_known (issue : Issue) (l : level) :
  has_level l issue = true ->
  severity_rank_of (issue_severity issue) = level_rank l.
Proof.
  unfold has_level. intros H. apply bool_decide_eq_true_1 in H. rewrite H.
  cbn [severity_rank_of]. now rewrite severity_rank_level.
Qed.

Lemma severity_rank_unknown (issue : Issue) :
  known_severity issue = false ->
  severity_rank_of (issue_severity issue) = 0.
Proof.
  unfold known_severity, has_level. intros H.
  apply orb_false_iff in H as [H He]. apply orb_false_iff in H as [Hi Hw].
  apply bool_decide_eq_false_1 in Hi, Hw, He.
  destruct (issue_severity issue) as [| z | s]; try reflexivity.
  cbn [severity_rank_of]. destruct (SEVERITY_RANK !! s) as [r|] eqn:Hr; [|reflexivity].
  apply severity_rank_name in Hr as ([] & -> & _); contradiction.
Qed.

Lemma known_severity_level (issue : Issue) :
  known_severity issue = true -> exists l, has_level l issue = true.
Proof.
  unfold known_severity. intros H.
  apply orb_true_iff in H as [H|H]; [apply orb_true_iff in H as [H|H]|]; eauto.
Qed.

Lemma has_level_known (issue : Issue) (l : level) :
  has_level l issue = true -> known_severity issue = true.
Proof.
  unfold known_severity. intros H. destruct l; rewrite H;
    rewrite ?orb_true_r; reflexivity.
Qed.

Lemma level_rank_pos (l : level) : 1 <= level_rank l <= 3.
Proof. destruct l; simpl; lia. Qed.

(** The rank test of the filter, said with levels: the severity is a known
    level, at or above the threshold. *)
Lemma rank_test_level (issue : Issue) (t : level) :
  (level_rank t <=? severity_rank_of (issue_severity issue)) = true <->
  exists l, has_level l issue = true /\ level_rank t <= level_rank l.
Proof.
  rewrite Z.leb_le. split.
  - intros Hle. destruct (known_severity issue) eqn:Hk.
    + destruct (known_severity_level _ Hk) as [l Hl]. exists l.
      split; [exact Hl|]. now rewrite <- (severity_rank_known _ _ Hl).
    + rewrite (severity_rank_unknown _ Hk) in Hle.
      pose proof (level_rank_pos t). lia.
  - intros (l & Hl & Hle). now rewrite (severity_rank_known _ _ Hl).
Qed.

Lemma filter_sublist {A} (p : A -> bool) (l : list A) :
  sublist (List.filter p l) l.
Proof.
  induction l as [|x l IH]; simpl; [constructor|].
  destruct (p x); now constructor.
Qed.

(** X1: the filter keeps, in their order, exactly the issues whose
    severity is a known level at or above the threshold. *)
Theorem filter_issues_by_severity_keeps (issues : list Issue) (t : level) :
  exists kept,
    filter_issues_by_severity issues (level_name t) = Ok kept /\
    sublist kept issues /\
    (forall issue : Issue,
       issue ∈ kept <->
       issue ∈ issues /\
       exists l, has_level l issue = true /\ level_rank t <= level_rank l).
Proof.
  rewrite filter_issues_by_severity_level. eexists. split; [reflexivity|].
  split; [apply filter_sublist|].
  intros issue. rewrite !list_elem_of_In, List.filter_In.
  now rewrite rank_test_level.
Qed.

(** X2: a threshold that is no level name makes the filter raise
    [KeyError], even on the empty list; the exit code follows, unless
    there is no record. *)
Theorem unknown_threshold_raises (threshold : pystr) (issues : list Issue)
    (summary : Summary) (flag : bool) :
  (forall l, threshold <> level_name l) ->
  filter_issues_by_severity issues threshold = Raise KeyError /\
  (total_records summary <> 0 ->
   determine_exit_code summary issues
     {| severity_threshold := threshold; fail_on_warning := flag |}
   = Raise KeyError).
Proof.
  intros Hno.
  assert (Hf : forall l : list Issue,
             filter_issues_by_severity l threshold = Raise KeyError).
  { intros l. unfold filter_issues_by_severity.
    destruct (SEVERITY_RANK !! threshold) as [r|] eqn:Hr; [|reflexivity].
    apply severity_rank_name in Hr as (lv & -> & _). now destruct (Hno lv). }
  split; [apply Hf|]. intros Hrec. unfold determine_exit_code.
  destruct (Z.eqb_spec (total_records summary) 0) as [?|_]; [contradiction|].
  cbn [severity_threshold]. now rewrite Hf.
Qed.

Lemma unknown_threshold_raises_witness :
  filter_issues_by_severity [] (py "critical") = Raise KeyError /\
  (total_records {| total_records := 1; total_issues := 0;
                    severity_counts := ∅ |} <> 0 ->
   determine_exit_code
     {| total_records := 1; total_issues := 0; severity_counts := ∅ |} []
     {| severity_threshold := py "critical"; fail_on_warning := false |}
   = Raise KeyError).
Proof.
  apply unknown_threshold_raises. intros l H. destruct l; vm_compute in H;
    discriminate H.
Defined.

Lemma filter_ext_in {A} (p q : A -> bool) (l : list A) :
  (forall x, p x = q x) -> List.filter p l = List.filter q l.
Proof. intros H. apply List.filter_ext. exact H. Qed.

(** X3: at the threshold [info] the filter drops exactly the issues of
    unknown severity, and the tally of the whole list adds up to the number
    of issues the filter lets through. *)
Theorem filter_info_known (issues : list Issue) :
  filter_issues_by_severity issues (py "info")
  = Ok (List.filter known_severity issues) /\
  tally_sum (count_issues_by_severity issues)
  = Z.of_nat (length (List.filter known_severity issues)).
Proof.
  split.
  - change (py "info") with (level_name Info).
    rewrite filter_issues_by_severity_level. f_equal.
    apply filter_ext_in. intros issue.
    destruct (known_severity issue) eqn:Hk.
    + apply rank_test_level. destruct (known_severity_level _ Hk) as [l Hl].
      exists l. split; [exact Hl|]. pose proof (level_rank_pos l). simpl. lia.
    + rewrite (severity_rank_unknown _ Hk). reflexivity.
  - pose proof (count_issues_by_severity_level issues Info) as Hi.
    pose proof (count_issues_by_severity_level issues Warning) as Hw.
    pose proof (count_issues_by_severity_level issues Error) as He.
    cbn [level_name] in Hi, Hw, He. unfold tally_sum.
    rewrite Hi, Hw, He. apply how_many_known.
Qed.

Lemma filter_filter_and {A} (p q : A -> bool) (l : list A) :
  List.filter p (List.filter q l) = List.filter (fun x => q x && p x) l.
Proof.
  induction l as [|x l IH]; simpl; [reflexivity|].
  destruct (q x); simpl; [destruct (p x)|]; now rewrite ?IH.
Qed.

Lemma level_max_rank (a b : level) :
  level_rank (level_max a b) = Z.max (level_rank a) (level_rank b).
Proof. unfold level_max. destruct (Z.leb_spec (level_rank a) (level_rank b)); lia. Qed.

(** X4: filtering at one threshold and then at another is filtering once
    at the higher of the two. *)
Theorem filter_issues_by_severity_compose (issues : list Issue) (t1 t2 : level) :
  exists kept1 kept12,
    filter_issues_by_severity issues (level_name t1) = Ok kept1 /\
    filter_issues_by_severity kept1 (level_name t2) = Ok kept12 /\
    filter_issues_by_severity issues (level_name (level_max t1 t2)) = Ok kept12.
Proof.
  rewrite !filter_issues_by_severity_level. eexists; eexists.
  split; [reflexivity|]. rewrite filter_issues_by_severity_level.
  split; [reflexivity|]. f_equal. rewrite filter_filter_and.
  apply filter_ext_in. intros issue. rewrite level_max_rank.
  destruct (Z.leb_spec (level_rank t1) (severity_rank_of (issue_severity issue)));
    destruct (Z.leb_spec (level_rank t2) (severity_rank_of (issue_severity issue)));
    destruct (Z.leb_spec (Z.max (level_rank t1) (level_rank t2))
                (severity_rank_of (issue_severity issue)));
    simpl; try reflexivity; lia.
Qed.

Lemma how_many_app (p : Issue -> bool) (l1 l2 : list Issue) :
  how_many p (l1 ++ l2) = how_many p l1 + how_many p l2.
Proof. unfold how_many. rewrite List.filter_app, length_app. lia. Qed.

Lemma count_of_how_many (issues : list Issue) (l : level) :
  count_of (count_issues_by_severity issues) l = how_many (has_level l) issues.
Proof. unfold count_of. now rewrite count_issues_by_severity_level. Qed.

(** X5: the filter and the tally go through concatenation: the issues of
    several validators can be filtered and counted one validator at a
    time. *)
Theorem filter_count_app (l1 l2 : list Issue) (t : level) :
  (exists k1 k2,
     filter_issues_by_severity l1 (level_name t) = Ok k1 /\
     filter_issues_by_severity l2 (level_name t) = Ok k2 /\
     filter_issues_by_severity (l1 ++ l2) (level_name t) = Ok (k1 ++ k2)) /\
  (forall l : level,
     count_of (count_issues_by_severity (l1 ++ l2)) l
     = count_of (count_issues_by_severity l1) l
       + count_of (count_issues_by_severity l2) l).
Proof.
  split.
  - rewrite !filter_issues_by_severity_level. eexists; eexists.
    split; [reflexivity|]. split; [reflexivity|]. now rewrite List.filter_app.
  - intros l. rewrite !count_of_how_many. apply how_many_app.
Qed.

Lemma how_many_filter (p q : Issue -> bool) (issues : list Issue) :
  how_many p (List.filter q issues) = how_many (fun x => q x && p x) issues.
Proof. unfold how_many. now rewrite filter_filter_and. Qed.

Lemma how_many_ext (p q : Issue -> bool) (issues : list Issue) :
  (forall x, p x = q x) -> how_many p issues = how_many q issues.
Proof. intros H. unfold how_many. now rewrite (filter_ext_in p q). Qed.

Lemma how_many_false (issues : list Issue) :
  how_many (fun _ => false) issues = 0.
Proof. unfold how_many. induction issues; simpl; auto. Qed.

(** X6: the tally of a filtered list keeps the counters of the levels at
    or above the threshold and has 0 for the levels below it. *)
Theorem count_after_filter (issues : list Issue) (t : level) :
  exists kept,
    filter_issues_by_severity issues (level_name t) = Ok kept /\
    forall l : level,
      count_of (count_issues_by_severity kept) l
      = if level_rank t <=? level_rank l
        then count_of (count_issues_by_severity issues) l
        else 0.
Proof.
  rewrite filter_issues_by_severity_level. eexists. split; [reflexivity|].
  intros l. rewrite !count_of_how_many, how_many_filter.
  destruct (Z.leb_spec (level_rank t) (level_rank l)) as [Hle|Hlt].
  - apply how_many_ext. intros issue. destruct (has_level l issue) eqn:Hl.
    + rewrite (severity_rank_known _ _ Hl), andb_true_r. now apply Z.leb_le.
    + apply andb_false_r.
  - rewrite <- (how_many_false issues). apply how_many_ext. intros issue.
    destruct (has_level l issue) eqn:Hl; [|apply andb_false_r].
    rewrite (severity_rank_known _ _ Hl), andb_true_r. apply Z.leb_gt. lia.
Qed.

(** ** More on the exit code *)

(** X7: with a level as threshold the exit code is 0, 5 or 10; it is 0
    exactly when there is no record or nothing blocks. *)
Theorem determine_exit_code_range (summary : Summary) (issues : list Issue)
    (t : level) (flag : bool) :
  exists blocking code,
    filter_issues_by_severity issues (level_name t) = Ok blocking /\
    determine_exit_code summary issues
      {| severity_threshold := level_name t; fail_on_warning := flag |}
    = Ok code /\
    (code = 0 \/ code = 5 \/ code = 10) /\
    (code = 0 <-> total_records summary = 0 \/ blocking = []).
Proof.
  unfold determine_exit_code. cbn [severity_threshold fail_on_warning].
  rewrite filter_issues_by_severity_level. cbn [mbind result_bind].
  eexists. destruct (Z.eqb_spec (total_records summary) 0) as [H0|H0].
  { exists 0. repeat split; auto. }
  destruct (List.filter _ issues) as [|b bs]; cbn [nonempty_list andb].
  { exists 0. repeat split; auto. }
  destruct flag; cbn [andb].
  - exists 5. repeat split; auto; try discriminate. intros [?|?]; [contradiction|discriminate].
  - exists 10. repeat split; auto; try discriminate. intros [?|?]; [contradiction|discriminate].
Qed.

(** X8: [--fail-on-warning] turns the code 10 into 5 and changes nothing
    else. *)
Theorem fail_on_warning_effect (summary : Summary) (issues : list Issue)
    (threshold : pystr) :
  match determine_exit_code summary issues
          {| severity_threshold := threshold; fail_on_warning := false |} with
  | Ok code =>
      determine_exit_code summary issues
        {| severity_threshold := threshold; fail_on_warning := true |}
      = Ok (if code =? 10 then 5 else code)
  | Raise e =>
      determine_exit_code summary issues
        {| severity_threshold := threshold; fail_on_warning := true |}
      = Raise e
  end.
Proof.
  unfold determine_exit_code. cbn [severity_threshold fail_on_warning].
  destruct (total_records summary =? 0); [reflexivity|].
  destruct (filter_issues_by_severity issues threshold) as [blocking|e];
    cbn [mbind result_bind]; [|reflexivity].
  destruct blocking; reflexivity.
Qed.

(** ** What all validators share *)

Lemma run_validator_loop (R : Runtime) (v : validator) (records : list Record) :
  run_validator R v records = for_each_record (validator_rules R v) 1 records.
Proof. now destruct v. Qed.

Lemma validator_rules_stamps (R : Runtime) (v : validator) :
  stamps_row (validator_rules R v).
Proof.
  destruct v; [apply email_rules_stamps | apply age_rules_stamps
              | apply country_rules_stamps | apply signup_date_rules_stamps].
Qed.

Ltac one_issue H :=
  injection H as <-; split; [simpl; lia|];
  repeat constructor; eexists; reflexivity.

(** A turn of any validator appends at most one issue, and the issue names
    the validator's field. *)
Lemma validator_rules_one (R : Runtime) (v : validator) (idx : Z)
    (record : Record) (new : list Issue) :
  validator_rules R v idx record = Ok new ->
  (length new <= 1)%nat /\ Forall (issue_of_field (validator_field v)) new.
Proof.
  destruct v; cbn [validator_rules validator_field]; intros H.
  - unfold email_rules in H. split_body H; one_issue H.
  - unfold age_rules in H.
    destruct (negb (nonempty _)); [one_issue H|].
    destruct (negb (isdigit R _)); [one_issue H|].
    destruct (py_int R _) as [age|e]; [|discriminate]. simpl in H.
    destruct (_ || _); one_issue H.
  - unfold country_rules in H. destruct (negb _); one_issue H.
  - unfold signup_date_rules in H.
    destruct (negb _); [one_issue H|].
    rewrite parse_date_accepted in H. simpl in H.
    destruct (first_parse R _) as [d|]; [|one_issue H].
    destruct (date_gt _ _); one_issue H.
Qed.

Section LoopCount.
Variable body : Z -> Record -> result (list Issue).
Hypothesis body_stamps : stamps_row body.
Hypothesis body_one :
  forall idx record new, body idx record = Ok new -> (length new <= 1)%nat.

Lemma for_each_record_length (records : list Record) (start : Z)
    (all : list Issue) :
  for_each_record body start records = Ok all ->
  (length all <= length records)%nat.
Proof.
  revert start all. induction records as [|r records IH]; intros start all; simpl.
  - now intros [= <-].
  - destruct (body start r) as [new|e] eqn:Hnew; [|discriminate]. simpl.
    destruct (for_each_record body (start + 1) records) as [more|e] eqn:Hmore;
      [|discriminate]. simpl.
    intros [= <-]. rewrite length_app.
    apply body_one in Hnew. apply IH in Hmore. lia.
Qed.

Lemma for_each_record_row_length (records : list Record) (start : Z)
    (all : list Issue) (row : Z) :
  for_each_record body start records = Ok all ->
  (length (issues_of_row row all) <= 1)%nat.
Proof.
  revert start all. induction records as [|r records IH]; intros start all; simpl.
  - now intros [= <-]; simpl; lia.
  - destruct (body start r) as [new|e] eqn:Hnew; [|discriminate]. simpl.
    destruct (for_each_record body (start + 1) records) as [more|e] eqn:Hmore;
      [|discriminate]. simpl.
    intros [= <-]. rewrite issues_of_row_app, length_app.
    destruct (decide (row = start)) as [->|Hne].
    + rewrite (issues_of_row_same start new (body_stamps _ _ _ Hnew)).
      rewrite (issues_of_row_other start more).
      * apply body_one in Hnew. simpl. lia.
      * eapply Forall_impl; [exact (for_each_record_rows _ body_stamps _ _ _ Hmore)|].
        intros issue (j & Hj & Hrow). exists j. split; [lia|exact Hrow].
    + rewrite (issues_of_row_other row new).
      * simpl. now apply (IH (start + 1)).
      * eapply Forall_impl; [exact (body_stamps _ _ _ Hnew)|].
        intros issue Hrow. exists start. split; [congruence|exact Hrow].
Qed.

End LoopCount.

Lemma run_validator_shape (R : Runtime) (v : validator)
    (records : list Record) (issues : list Issue) :
  run_validator R v records = Ok issues ->
  (length issues <= length records)%nat /\
  (forall row, (length (issues_of_row row issues) <= 1)%nat) /\
  Forall (row_between 1 (Z.of_nat (length records))) issues /\
  Forall (issue_of_field (validator_field v)) issues.
Proof.
  rewrite run_validator_loop. intros Hall.
  pose proof (fun idx record new H =>
                proj1 (validator_rules_one R v idx record new H)) as Hone.
  split; [exact (for_each_record_length _ Hone _ _ _ Hall)|].
  split.
  { intros row.
    exact (for_each_record_row_length _ (validator_rules_stamps R v) Hone
             _ _ _ row Hall). }
  split.
  - eapply Forall_impl;
      [exact (for_each_record_rows _ (validator_rules_stamps R v) _ _ _ Hall)|].
    intros issue (j & Hj & Hrow). exists j. split; [lia|exact Hrow].
  - eapply Forall_impl;
      [exact (for_each_record_Forall _
                (fun _ => issue_of_field (validator_field v))
                (fun idx record new H =>
                   proj2 (validator_rules_one R v idx record new H))
                _ _ _ Hall)|].
    now intros issue (j & _ & H).
Qed.

(** X9: a validator that returns gives at most one issue per record: no
    more issues than records, at most one issue per row number, and every
    row number is the position of a record, counted from 1. *)
Theorem validator_one_issue_per_record (R : Runtime) (v : validator)
    (records : list Record) (issues : list Issue) :
  run_validator R v records = Ok issues ->
  (length issues <= length records)%nat /\
  (forall row, (length (issues_of_row row issues) <= 1)%nat) /\
  Forall (row_between 1 (Z.of_nat (length records))) issues /\
  Forall (issue_of_field (validator_field v)) issues.
Proof. apply run_validator_shape. Qed.

Lemma validator_one_issue_per_record_witness :
  let records : list Record := [∅; dict [("email", py "a@b.c")]%string] in
  exists issues,
    run_validator Sample.runtime Emails records = Ok issues /\
    (length issues <= length records)%nat /\
    (forall row, (length (issues_of_row row issues) <= 1)%nat) /\
    Forall (row_between 1 (Z.of_nat (length records))) issues /\
    Forall (issue_of_field (validator_field Emails)) issues.
Proof.
  intros records.
  destruct (check_invalid_emails_total records) as [issues Hall].
  exists issues. split; [exact Hall|].
  exact (validator_one_issue_per_record Sample.runtime Emails records issues Hall).
Defined.

(** X10: the issues of all checks come validator by validator (emails,
    ages, countries, signup dates), each block in row order with at most
    one issue per record; so there are at most four issues per record. *)
Theorem run_all_checks_blocks (R : Runtime) (records : list Record)
    (issues : list Issue) :
  run_all_checks R records = Ok issues ->
  exists emails ages countries dates,
    issues = emails ++ ages ++ countries ++ dates /\
    check_invalid_emails records = Ok emails /\
    check_invalid_ages R records = Ok ages /\
    check_invalid_countries R records = Ok countries /\
    check_invalid_signup_dates R records = Ok dates /\
    Forall (issue_of_field (py "email")) emails /\
    Forall (issue_of_field (py "age")) ages /\
    Forall (issue_of_field (py "country")) countries /\
    Forall (issue_of_field (py "signup_date")) dates /\
    (length issues <= 4 * length records)%nat /\
    (forall row, (length (issues_of_row row issues) <= 4)%nat) /\
    Forall (row_between 1 (Z.of_nat (length records))) issues.
Proof.
  unfold run_all_checks. intros H.
  destruct (check_invalid_emails records) as [emails|] eqn:He; [|discriminate].
  destruct (check_invalid_ages R records) as [ages|] eqn:Ha; [|discriminate].
  destruct (check_invalid_countries R records) as [countries|] eqn:Hc;
    [|discriminate].
  destruct (check_invalid_signup_dates R records) as [dates|] eqn:Hd;
    [|discriminate].
  injection H as <-. exists emails, ages, countries, dates.
  destruct (run_validator_shape R Emails _ _ He) as (Le & Re & Be & Fe).
  destruct (run_validator_shape R Ages _ _ Ha) as (La & Ra & Ba & Fa).
  destruct (run_validator_shape R Countries _ _ Hc) as (Lc & Rc & Bc & Fc).
  destruct (run_validator_shape R SignupDates _ _ Hd)
    as (Ld & Rd & Bd & Fd).
  repeat (split; [first [reflexivity | assumption]|]).
  split; [rewrite !length_app; lia|].
  split.
  - intros row. rewrite !issues_of_row_app, !length_app.
    specialize (Re row). specialize (Ra row). specialize (Rc row).
    specialize (Rd row). lia.
  - rewrite !Forall_app. now repeat split.
Qed.

Lemma run_all_checks_blocks_witness :
  let records : list Record := [∅] in
  exists issues,
    run_all_checks Sample.runtime records = Ok issues /\
    (length issues <= 4 * length records)%nat.
Proof.
  intros records.
  destruct (check_invalid_ages_total Sample.runtime records) as [ages Hages].
  { constructor; [|constructor]. intros age_raw Hdigit.
    vm_compute in Hdigit. discriminate Hdigit. }
  destruct (run_all_checks_total Sample.runtime records ages Hages)
    as [issues Hall].
  exists issues. split; [exact Hall|].
  destruct (run_all_checks_blocks Sample.runtime records issues Hall)
    as (e & a & c & d & _ & _ & _ & _ & _ & _ & _ & _ & _ & Hlen & _).
  exact Hlen.
Defined.

(** ** Which emails pass *)

Lemma str_split_nonempty (s : pystr) (c : N) : str_split s c <> [].
Proof.
  destruct s as [|x s]; simpl; [discriminate|].
  destruct (x =? c)%N; [discriminate|]. destruct (str_split s c); discriminate.
Qed.

(** Splitting and joining again gives the string back, and no piece holds
    the separator. *)
Lemma str_split_join (s : pystr) (c : N) :
  str_join c (str_split s c) = s /\ Forall (fun piece => c ∉ piece) (str_split s c).
Proof.
  induction s as [|x s [IHj IHf]]; simpl.
  - split; [reflexivity|]. repeat constructor. apply not_elem_of_nil.
  - destruct (N.eqb_spec x c) as [->|Hne].
    + pose proof (str_split_nonempty s c) as Hne.
      split.
      * simpl. destruct (str_split s c) as [|p ps]; [contradiction|].
        now rewrite IHj.
      * constructor; [apply not_elem_of_nil|exact IHf].
    + destruct (str_split s c) as [|p ps] eqn:Hs.
      * now destruct (str_split_nonempty s c).
      * apply Forall_cons in IHf as [Hp Hps]. split.
        -- destruct ps; simpl in *; now rewrite <- IHj.
        -- constructor; [|exact Hps]. rewrite elem_of_cons. intros [?|?]; auto.
Qed.

Lemma str_split_two (s a b : pystr) (c : N) :
  str_split s c = [a; b] -> s = a ++ c :: b /\ (c ∉ a) /\ (c ∉ b).
Proof.
  intros H. destruct (str_split_join s c) as [Hj Hf]. rewrite H in Hj, Hf.
  simpl in Hj. apply Forall_cons in Hf as [Ha Hf].
  apply Forall_cons in Hf as [Hb _]. now rewrite Hj.
Qed.

Lemma str_count_none (s : pystr) (c : N) : c ∉ s -> str_count s c = 0.
Proof.
  induction s as [|x s IH]; simpl; [reflexivity|].
  rewrite elem_of_cons. intros H.
  destruct (N.eqb_spec x c) as [->|_]; [tauto|]. rewrite IH; tauto.
Qed.

Lemma str_count_app (s1 s2 : pystr) (c : N) :
  str_count (s1 ++ s2) c = str_count s1 c + str_count s2 c.
Proof. induction s1 as [|x s1 IH]; simpl; [reflexivity|]. rewrite IH. lia. Qed.

Lemma str_split_none (s : pystr) (c : N) : c ∉ s -> str_split s c = [s].
Proof.
  induction s as [|x s IH]; simpl; [reflexivity|].
  rewrite elem_of_cons. intros H.
  destruct (N.eqb_spec x c) as [->|_]; [tauto|]. rewrite IH; tauto.
Qed.

Lemma str_split_at (a b : pystr) (c : N) :
  c ∉ a -> str_split (a ++ c :: b) c = a :: str_split b c.
Proof.
  induction a as [|x a IH]; simpl.
  - intros _. now rewrite N.eqb_refl.
  - rewrite elem_of_cons. intros H.
    destruct (N.eqb_spec x c) as [->|_]; [tauto|]. rewrite IH; tauto.
Qed.

Lemma str_contains_elem (s : pystr) (c : N) :
  str_contains s c = true <-> c ∈ s.
Proof.
  unfold str_contains. rewrite existsb_exists, list_elem_of_In. split.
  - intros (x & Hin & Hx). apply N.eqb_eq in Hx. now subst.
  - intros Hin. exists c. split; [exact Hin|apply N.eqb_refl].
Qed.

Lemma startswith_head (s : pystr) (c : N) :
  startswith s c = true <-> head s = Some c.
Proof.
  destruct s as [|x s]; simpl; [split; discriminate|].
  rewrite N.eqb_eq. split; congruence.
Qed.

Lemma endswith_last (s : pystr) (c : N) :
  endswith s c = true <-> last s = Some c.
Proof.
  unfold endswith. rewrite startswith_head.
  destruct s as [|x s _] using rev_ind; [reflexivity|].
  now rewrite rev_app_distr, last_snoc.
Qed.

Lemma nonempty_true (s : pystr) : nonempty s = true <-> s <> [].
Proof. destruct s; simpl; split; congruence. Qed.

Lemma email_rules_accept (idx : Z) (record : Record) :
  email_rules idx record = Ok [] <->
  accepted_email (strip (dict_get record "email" [])).
Proof.
  unfold email_rules. set (email := strip (dict_get record "email" [])).
  split.
  - destruct (nonempty email) eqn:Hne; cbn [negb]; [|discriminate].
    destruct (Z.eqb_spec (str_count email (chr "@")) 1) as [H1|H1];
      cbn [negb]; [|discriminate].
    destruct (str_split_one _ _ H1) as (local & domain & Hs). rewrite Hs.
    destruct (str_split_two _ _ _ _ Hs) as (Heq & Hl & Hd).
    destruct (nonempty local) eqn:Hnl; cbn [negb orb]; [|discriminate].
    destruct (nonempty domain) eqn:Hnd; cbn [negb]; [|discriminate].
    destruct (str_contains domain (chr ".")) eqn:Hdot; cbn [negb]; [|discriminate].
    destruct (startswith domain (chr ".")) eqn:Hst; cbn [orb]; [discriminate|].
    destruct (endswith domain (chr ".")) eqn:Hen; [discriminate|].
    intros _. exists local, domain.
    repeat split; try assumption.
    + now apply nonempty_true.
    + now apply nonempty_true.
    + now apply str_contains_elem.
    + intros H. apply startswith_head in H. congruence.
    + intros H. apply endswith_last in H. congruence.
  - intros (local & domain & Heq & Hl & Hd & Hnl & Hnd & Hdot & Hst & Hen).
    assert (Hne : nonempty email = true).
    { rewrite Heq. now destruct local. }
    rewrite Hne. cbn [negb].
    assert (H1 : str_count email (chr "@") = 1).
    { rewrite Heq, str_count_app. cbn [str_count]. rewrite N.eqb_refl.
      rewrite (str_count_none local), (str_count_none domain) by assumption.
      reflexivity. }
    rewrite H1. cbn [Z.eqb Pos.eqb negb].
    rewrite Heq, (str_split_at _ _ _ Hl), (str_split_none _ _ Hd).
    apply nonempty_true in Hnl, Hnd. rewrite Hnl, Hnd. cbn [negb orb].
    apply str_contains_elem in Hdot. rewrite Hdot. cbn [negb].
    destruct (startswith domain (chr ".")) eqn:Hs;
      [apply startswith_head in Hs; contradiction|].
    destruct (endswith domain (chr ".")) eqn:He;
      [apply endswith_last in He; contradiction|].
    reflexivity.
Qed.

(** X11: when the email validator returns, it has no issue for a record
    exactly when the trimmed address is one [@] between two non-empty
    parts, with a dot inside the domain that is neither its first nor its
    last character. *)
Theorem check_invalid_emails_accepts (records : list Record)
    (issues : list Issue) (i : nat) (record : Record) :
  check_invalid_emails records = Ok issues ->
  records !! i = Some record ->
  (issues_of_row (1 + Z.of_nat i) issues = [] <->
   accepted_email (strip (dict_get record "email" []))).
Proof.
  intros Hall Hi.
  pose proof (for_each_record_row _ email_rules_stamps _ _ _ _ _ Hall Hi) as Hrow.
  rewrite <- email_rules_accept. rewrite Hrow. split.
  - now intros ->.
  - now intros [= ->].
Qed.

Lemma check_invalid_emails_accepts_witness :
  let record : Record := dict [("email", py " ann@example.org ")]%string in
  exists issues,
    check_invalid_emails [record] = Ok issues /\
    (issues_of_row (1 + Z.of_nat 0) issues = [] <->
     accepted_email (strip (dict_get record "email" []))).
Proof.
  intros record.
  destruct (check_invalid_emails_total [record]) as [issues Hall].
  exists issues. split; [exact Hall|].
  exact (check_invalid_emails_accepts [record] issues 0 record Hall eq_refl).
Defined.

(** ** Which ages pass, and when the age validator returns *)

Lemma int_digits_nonneg (s : list intchar) (acc n v m : Z) :
  0 <= acc -> int_digits acc n s = Some (v, m) -> 0 <= v.
Proof.
  revert acc n. induction s as [|ch s IH]; intros acc n Hacc; simpl.
  - now intros [= <- _].
  - destruct ch as [| neg | | d |]; try discriminate.
    + destruct (int_skip_space s); [|discriminate]. now intros [= <- _].
    + destruct s as [|[| neg | | d |] s']; try discriminate.
      apply IH. exact Hacc.
    + apply IH. lia.
Qed.

Lemma int_unsigned_nonneg (R : Runtime) (s : list intchar) (v : Z) :
  int_unsigned R s = Ok v -> 0 <= v.
Proof.
  unfold int_unsigned. destruct s as [|[| neg | | d |] s]; try discriminate.
  destruct (int_digits 0 0 (IDigit d :: s)) as [[v' m]|] eqn:Hd; [|discriminate].
  destruct (_ && _); [discriminate|]. intros [= <-].
  eapply int_digits_nonneg; [|exact Hd]. lia.
Qed.

Lemma isdigit_char_class (R : Runtime) (c : N) :
  isdigit_char R c = true ->
  int_class R c = ISpace \/ int_class R c = IOther \/
  exists d, int_class R c = IDigit d.
Proof.
  unfold isdigit_char, int_class.
  destruct (N.ltb_spec c 128) as [Hlt|Hge].
  - intros H. apply andb_true_iff in H as [H1 H2].
    apply N.leb_le in H1, H2.
    destruct (N.ltb_spec c 127); [|lia].
    destruct (N.leb_spec 9 c); destruct (N.leb_spec c 13); try lia; cbn [andb orb].
    all: destruct (N.eqb_spec c 32); try lia; cbn [orb].
    all: destruct (N.eqb_spec c 43); try lia.
    all: destruct (N.eqb_spec c 45); try lia.
    all: destruct (N.eqb_spec c 95); try lia.
    all: destruct (N.leb_spec 48 c); destruct (N.leb_spec c 57); try lia;
      cbn [andb]; eauto.
  - intros _. destruct (N.ltb_spec c 127); [lia|].
    destruct (py_isspace c); [auto|].
    destruct (decimal_value R c); eauto.
Qed.

Lemma int_skip_space_no_sign (s : list intchar) :
  Forall (fun ch => forall neg, ch <> ISign neg) s ->
  Forall (fun ch => forall neg, ch <> ISign neg) (int_skip_space s).
Proof.
  induction 1 as [|ch s Hch Hs IH]; simpl; [constructor|].
  destruct ch; try (constructor; assumption). exact IH.
Qed.

(** The conversion of a string of digits, when it succeeds, gives a
    natural number: a sign is no digit. *)
Lemma py_int_digits_nonneg (R : Runtime) (s : pystr) (v : Z) :
  isdigit R s = true -> py_int R s = Ok v -> 0 <= v.
Proof.
  unfold isdigit, py_int. intros Hd. apply andb_true_iff in Hd as [_ Hd].
  assert (Hns : Forall (fun ch => forall neg, ch <> ISign neg)
                  (map (int_class R) s)).
  { rewrite forallb_forall in Hd. apply Forall_forall. intros ch Hch.
    apply list_elem_of_In, in_map_iff in Hch as (c & <- & Hc).
    intros neg. destruct (isdigit_char_class R c (Hd c Hc))
      as [-> | [-> | [d ->]]]; discriminate. }
  apply int_skip_space_no_sign in Hns.
  destruct (int_skip_space (map (int_class R) s)) as [|ch rest];
    [apply int_unsigned_nonneg|].
  destruct ch as [| neg | | d |]; try apply int_unsigned_nonneg.
  apply Forall_cons in Hns as [Hns _]. now destruct (Hns neg).
Qed.

(** X12: the age validator has no issue for a record exactly when the
    trimmed age is all digits and converts to a number from 1 to 120; a
    converted age outside that range is reported as a number, and that
    number is 0 or above 120. *)
Theorem check_invalid_ages_accepts (R : Runtime) (records : list Record)
    (issues : list Issue) (i : nat) (record : Record) :
  let age_raw := strip (dict_get record "age" []) in
  check_invalid_ages R records = Ok issues ->
  records !! i = Some record ->
  (issues_of_row (1 + Z.of_nat i) issues = [] <->
   isdigit R age_raw = true /\
   exists age, py_int R age_raw = Ok age /\ 1 <= age <= 120) /\
  (forall age,
     isdigit R age_raw = true -> py_int R age_raw = Ok age ->
     ~ (1 <= age <= 120) ->
     (age = 0 \/ 120 < age) /\
     issues_of_row (1 + Z.of_nat i) issues =
     [dict [("row", VInt (1 + Z.of_nat i));
            ("field", VStr (py "age"));
            ("value", VInt age);
            ("reason", VStr (py "age out of range"));
            ("severity", VStr (py "warning"))]%string]).
Proof.
  intros age_raw Hall Hi.
  pose proof (for_each_record_row _ (age_rules_stamps R) _ _ _ _ _ Hall Hi) as Hrow.
  unfold age_rules in Hrow. fold age_raw in Hrow. split.
  - split.
    + intros Hnil. rewrite Hnil in Hrow.
      destruct (nonempty age_raw); cbn [negb] in Hrow; [|discriminate].
      destruct (isdigit R age_raw); cbn [negb] in Hrow; [|discriminate].
      split; [reflexivity|].
      destruct (py_int R age_raw) as [age|e]; [|discriminate].
      cbn [mbind result_bind] in Hrow. exists age. split; [reflexivity|].
      destruct (Z.ltb_spec age 1); [discriminate|].
      destruct (Z.ltb_spec 120 age); [discriminate|]. lia.
    + intros (Hd & age & Hint & Hrange). rewrite Hd, Hint in Hrow.
      assert (Hne : nonempty age_raw = true).
      { unfold isdigit in Hd. now apply andb_true_iff in Hd as [Hne _]. }
      rewrite Hne in Hrow. cbn [negb mbind result_bind] in Hrow.
      destruct (Z.ltb_spec age 1); [lia|].
      destruct (Z.ltb_spec 120 age); [lia|].
      cbn [orb] in Hrow. now injection Hrow.
  - intros age Hd Hint Hout.
    pose proof (py_int_digits_nonneg R age_raw age Hd Hint) as Hpos.
    split; [lia|].
    assert (Hne : nonempty age_raw = true).
    { unfold isdigit in Hd. now apply andb_true_iff in Hd as [Hne _]. }
    rewrite Hne, Hd, Hint in Hrow. cbn [negb mbind result_bind] in Hrow.
    destruct (Z.ltb_spec age 1); destruct (Z.ltb_spec 120 age);
      cbn [orb] in Hrow; try lia; now injection Hrow.
Qed.

Lemma check_invalid_ages_accepts_witness :
  let record : Record := dict [("age", py "150")]%string in
  let age_raw := strip (dict_get record "age" []) in
  exists issues,
    check_invalid_ages Sample.runtime [record] = Ok issues /\
    (150 = 0 \/ 120 < 150) /\
    issues_of_row (1 + Z.of_nat 0) issues =
    [dict [("row", VInt (1 + Z.of_nat 0));
           ("field", VStr (py "age"));
           ("value", VInt 150);
           ("reason", VStr (py "age out of range"));
           ("severity", VStr (py "warning"))]%string].
Proof.
  intros record age_raw.
  destruct (check_invalid_ages_total Sample.runtime [record]) as [issues Hall].
  { constructor; [|constructor]. intros raw _. exists 150.
    vm_compute. reflexivity. }
  exists issues. split; [exact Hall|].
  apply (proj2 (check_invalid_ages_accepts Sample.runtime [record] issues 0
                  record Hall eq_refl) 150).
  - vm_compute. reflexivity.
  - vm_compute. reflexivity.
  - vm_compute. intros [_ H]. now apply H.
Defined.

Lemma int_digits_all (ds : list N) (acc n : Z) :
  exists v, int_digits acc n (map IDigit ds) = Some (v, n + Z.of_nat (length ds)).
Proof.
  revert acc n. induction ds as [|d ds IH]; intros acc n; simpl.
  - exists acc. do 2 f_equal. lia.
  - destruct (IH (10 * acc + Z.of_N d) (n + 1)) as [v ->]. exists v.
    do 2 f_equal. lia.
Qed.

Lemma safe_age_classes (R : Runtime) (s : pystr) :
  forallb (isdigit_char R) s = true ->
  Forall (fun c => (128 <= c)%N -> unicode_isdigit R c = true ->
                   py_isspace c = false /\ is_Some (unicode_decimal R c)) s ->
  exists ds, map (int_class R) s = map IDigit ds /\ length ds = length s.
Proof.
  intros Hd Hsafe. induction Hsafe as [|c s Hc _ IH]; simpl in *.
  - now exists [].
  - apply andb_true_iff in Hd as [Hdc Hd]. destruct (IH Hd) as (ds & -> & Hlen).
    assert (Hcls : exists d, int_class R c = IDigit d).
    { unfold isdigit_char in Hdc. unfold int_class, decimal_value.
      destruct (N.ltb_spec c 128) as [Hlt|Hge].
      - apply andb_true_iff in Hdc as [H1 H2]. apply N.leb_le in H1, H2.
        destruct (N.ltb_spec c 127); [|lia].
        destruct (N.leb_spec 9 c); destruct (N.leb_spec c 13); try lia;
          cbn [andb orb].
        all: destruct (N.eqb_spec c 32); try lia; cbn [orb].
        all: destruct (N.eqb_spec c 43); try lia.
        all: destruct (N.eqb_spec c 45); try lia.
        all: destruct (N.eqb_spec c 95); try lia.
        all: destruct (N.leb_spec 48 c); destruct (N.leb_spec c 57); try lia;
          cbn [andb]; eauto.
      - destruct (Hc Hge Hdc) as [Hsp [d Hdec]].
        destruct (N.ltb_spec c 127); [lia|]. rewrite Hsp, Hdec. eauto. }
    destruct Hcls as [d ->]. exists (d :: ds). simpl. now rewrite Hlen.
Qed.

(** On a safe age that is all digits the conversion returns. *)
Lemma py_int_safe (R : Runtime) (s : pystr) :
  safe_age R s -> isdigit R s = true -> exists v, py_int R s = Ok v.
Proof.
  intros [Hsafe Hlen] Hd. unfold isdigit in Hd.
  apply andb_true_iff in Hd as [Hne Hd].
  destruct (safe_age_classes R s Hd Hsafe) as (ds & Hcls & Hds).
  unfold py_int. rewrite Hcls.
  destruct ds as [|d ds]; [destruct s; discriminate|].
  cbn [map int_skip_space]. unfold int_unsigned.
  destruct (int_digits_all (d :: ds) 0 0) as [v Hv].
  cbn [map] in Hv. rewrite Hv. rewrite Z.add_0_l, Hds.
  exists v.
  destruct (Z.ltb_spec 640 (Z.of_nat (length s))); cbn [andb]; [|reflexivity].
  destruct (Z.ltb_spec 0 (int_max_str_digits R)); cbn [andb]; [|reflexivity].
  destruct (Z.ltb_spec (int_max_str_digits R) (Z.of_nat (length s)));
    [lia|reflexivity].
Qed.

Lemma age_rules_raise (R : Runtime) (idx : Z) (record : Record) (e : exn) :
  let age_raw := strip (dict_get record "age" []) in
  age_rules R idx record = Raise e ->
  isdigit R age_raw = true /\ py_int R age_raw = Raise e.
Proof.
  intros age_raw. unfold age_rules. fold age_raw.
  destruct (negb (nonempty age_raw)); [discriminate|].
  destruct (isdigit R age_raw); cbn [negb]; [|discriminate].
  destruct (py_int R age_raw) as [age|e']; cbn [mbind result_bind].
  - destruct (_ || _); discriminate.
  - now intros [= ->].
Qed.

(** A loop that raises does so in the turn of one of its records. *)
Lemma for_each_record_raise (body : Z -> Record -> result (list Issue))
    (records : list Record) (start : Z) (e : exn) :
  for_each_record body start records = Raise e ->
  Exists (fun record => exists idx, body idx record = Raise e) records.
Proof.
  revert start. induction records as [|record records IH]; intros start; simpl.
  - discriminate.
  - destruct (body start record) as [new|e'] eqn:Hnew; cbn [mbind result_bind].
    + destruct (for_each_record body (start + 1) records) as [more|e'] eqn:Hmore;
        cbn [mbind result_bind]; [discriminate|].
      intros [= ->]. apply Exists_cons_tl. now apply (IH (start + 1)).
    + intros [= ->]. apply Exists_cons_hd. eauto.
Qed.

(** X13: the [isdigit] guard of the age validator protects the conversion
    on every safe age (its digits outside ASCII are decimals, its length
    is within the limit of the integer conversion): there [int] returns,
    and returns no negative number.  So when the age validator raises
    [ValueError], one of the records has an all-digit age that is not
    safe. *)
Theorem check_invalid_ages_value_error (R : Runtime) :
  (forall age_raw : pystr,
     isdigit R age_raw = true -> safe_age R age_raw ->
     exists age, py_int R age_raw = Ok age /\ 0 <= age) /\
  (forall records : list Record,
     check_invalid_ages R records = Raise ValueError ->
     Exists (fun record : Record =>
               isdigit R (strip (dict_get record "age" [])) = true /\
               ~ safe_age R (strip (dict_get record "age" [])))
       records).
Proof.
  split.
  - intros age_raw Hd Hs. destruct (py_int_safe R age_raw Hs Hd) as [age Hage].
    exists age. split; [exact Hage|].
    exact (py_int_digits_nonneg R age_raw age Hd Hage).
  - intros records Hraise. apply for_each_record_raise in Hraise.
    eapply Exists_impl; [exact Hraise|].
    intros record [idx Hbody]. apply age_rules_raise in Hbody as [Hd Hint].
    split; [exact Hd|]. intros Hs.
    destruct (py_int_safe R _ Hs Hd) as [age Hage]. congruence.
Qed.

Lemma check_invalid_ages_value_error_witness :
  let records : list Record := [{[ py "age" := [178%N] ]}] in
  (exists age, py_int Sample.runtime (py "42") = Ok age /\ 0 <= age) /\
  Exists (fun record : Record =>
            isdigit Sample.runtime (strip (dict_get record "age" [])) = true /\
            ~ safe_age Sample.runtime (strip (dict_get record "age" [])))
    records.
Proof.
  intros records.
  destruct (check_invalid_ages_value_error Sample.runtime) as [Hint Hraise].
  split.
  - apply Hint; [reflexivity|]. split; [|left; simpl; lia].
    assert (Hascii : Forall (fun c => (c < 128)%N) (py "42"))
      by (vm_compute; repeat constructor).
    eapply Forall_impl; [exact Hascii|].
    intros c Hc Hge _. cbv beta in Hc. exfalso. lia.
  - apply Hraise. reflexivity.
Defined.

(** ** Which countries pass *)

Lemma country_rules_accept (R : Runtime) (idx : Z) (record : Record)
    (new : list Issue) :
  country_rules R idx record = Ok new ->
  (new = [] <-> opt_truthy (resolve_country R (record !! py "country")) = true).
Proof.
  unfold country_rules.
  destruct (opt_truthy (resolve_country R (record !! py "country")));
    cbn [negb]; intros [= <-]; split; intros H; try reflexivity; discriminate H.
Qed.

(** X14: the country validator passes a record exactly when
    [resolve_country] gives a name for its raw country.  A non-empty value
    that is an alias of the United Kingdom once trimmed and upper-cased
    passes without the dataset being asked; a value of blanks only is not
    caught by the emptiness test and is looked up as the empty string. *)
Theorem check_invalid_countries_accepts (R : Runtime) (records : list Record)
    (i : nat) (record : Record) :
  records !! i = Some record ->
  exists issues,
    check_invalid_countries R records = Ok issues /\
    (issues_of_row (1 + Z.of_nat i) issues = [] <->
     opt_truthy (resolve_country R (record !! py "country")) = true) /\
    (forall v, record !! py "country" = Some v -> v <> [] ->
               upper R (strip v) ∈ UK_ALIASES ->
               issues_of_row (1 + Z.of_nat i) issues = []) /\
    (forall v, record !! py "country" = Some v -> v <> [] -> strip v = [] ->
               (issues_of_row (1 + Z.of_nat i) issues = [] <->
                opt_truthy (countries_lookup R []) = true)).
Proof.
  intros Hi.
  destruct (check_invalid_countries_total R records) as [issues Hall].
  exists issues. split; [exact Hall|].
  pose proof (for_each_record_row _ (country_rules_stamps R)
                _ _ _ _ _ Hall Hi) as Hrow.
  apply country_rules_accept in Hrow. split; [exact Hrow|]. split.
  - intros v Hv Hne Halias. apply Hrow. rewrite Hv. unfold resolve_country.
    destruct v as [|c v]; [contradiction|]. cbn [nonempty negb].
    now rewrite bool_decide_eq_true_2 by exact Halias.
  - intros v Hv Hne Hblank. rewrite Hrow, Hv. unfold resolve_country.
    destruct v as [|c v]; [contradiction|]. cbn [nonempty negb].
    rewrite Hblank. reflexivity.
Qed.

Lemma check_invalid_countries_accepts_witness :
  let record : Record := dict [("country", py " uk ")]%string in
  exists issues,
    check_invalid_countries Sample.runtime [record] = Ok issues /\
    issues_of_row (1 + Z.of_nat 0) issues = [].
Proof.
  intros record.
  destruct (check_invalid_countries_accepts Sample.runtime [record] 0 record
              eq_refl) as (issues & Hall & _ & Halias & _).
  exists issues. split; [exact Hall|].
  apply (Halias (py " uk ")); [reflexivity|discriminate|].
  refine (bool_decide_unpack _ _). vm_compute. exact I.
Defined.

(** ** The exit status of a run *)


Lemma warning_only_filter_keep (issues : list Issue) (t : level) :
  level_rank t <= 2 ->
  Forall warning_or_unset issues ->
  filter_issues_by_severity issues (level_name t) = Ok issues.
Proof.
  intros Ht H. rewrite filter_issues_by_severity_level. f_equal.
  induction H as [|issue issues Hw _ IH]; [reflexivity|].
  cbn [List.filter]. rewrite (warning_or_unset_severity _ Hw).
  change (severity_rank_of (VStr (py "warning"))) with 2.
  destruct (Z.leb_spec (level_rank t) 2); [|lia]. now rewrite IH.
Qed.

Lemma run_all_checks_no_record (R : Runtime) (records : list Record)
    (all_issues : list Issue) :
  run_all_checks R records = Ok all_issues ->
  length records = 0%nat -> all_issues = [].
Proof.
  intros Hall Hlen. destruct records; [|discriminate].
  vm_compute in Hall. now injection Hall.
Qed.

(** X16: at the thresholds [info] and [warning] a run in which the checks
    return filters nothing out: every issue is handed on, the exit code is
    0 exactly when there is no issue at all, and the [warning] counter of
    the summary is the total number of issues. *)
Theorem main_warning_threshold (R : Runtime) (records : list Record)
    (all_issues : list Issue) (t : level) (flag : bool) :
  level_rank t <= 2 ->
  run_all_checks R records = Ok all_issues ->
  main R {| severity_threshold := level_name t; fail_on_warning := flag |} records
  = Ok {| out_summary := build_summary records all_issues;
          out_issues := all_issues;
          out_code := match all_issues with
                      | [] => 0
                      | _ :: _ => if flag then 5 else 10
                      end |} /\
  count_of (severity_counts (build_summary records all_issues)) Warning
  = total_issues (build_summary records all_issues).
Proof.
  intros Ht Hall.
  pose proof (run_all_checks_severity R records all_issues Hall) as Hsev.
  pose proof (warning_only_filter_keep all_issues t Ht Hsev) as Hkeep.
  split.
  - unfold main. rewrite Hall. cbn [mbind result_bind severity_threshold].
    rewrite Hkeep. cbn [mbind result_bind].
    unfold determine_exit_code.
    cbn [severity_threshold fail_on_warning build_summary total_records].
    rewrite Hkeep. cbn [mbind result_bind].
    destruct (Z.eqb_spec (Z.of_nat (length records)) 0) as [H0|H0].
    + rewrite (run_all_checks_no_record R records all_issues Hall) by lia.
      reflexivity.
    + destruct all_issues as [|a l]; [reflexivity|].
      cbn [nonempty_list andb]. now destruct flag.
  - cbn [build_summary severity_counts total_issues].
    rewrite count_of_how_many. now apply warning_only_how_many.
Qed.

Lemma main_warning_threshold_witness :
  let records : list Record := [∅] in
  exists all_issues,
    run_all_checks Sample.runtime records = Ok all_issues /\
    main Sample.runtime
      {| severity_threshold := level_name Info; fail_on_warning := true |} records
    = Ok {| out_summary := build_summary records all_issues;
            out_issues := all_issues;
            out_code := match all_issues with
                        | [] => 0
                        | _ :: _ => if true then 5 else 10
                        end |}.
Proof.
  intros records.
  destruct (check_invalid_ages_total Sample.runtime records) as [ages Hages].
  { constructor; [|constructor]. intros age_raw Hdigit.
    vm_compute in Hdigit. discriminate Hdigit. }
  destruct (run_all_checks_total Sample.runtime records ages Hages)
    as [all_issues Hall].
  exists all_issues. split; [exact Hall|].
  apply (main_warning_threshold Sample.runtime records all_issues Info true);
    [simpl; lia|exact Hall].
Defined.

(** ** The exports *)

Lemma handle_exports_none (can_open : pystr -> bool) (issues : list Issue)
    (summary : Summary) (outputs : Outputs) (fs : FileSystem) :
  opt_truthy (output_csv outputs) = false ->
  opt_truthy (output_json outputs) = false ->
  handle_exports can_open issues summary outputs fs = Written fs.
Proof. unfold handle_exports. now intros -> ->. Qed.

Lemma handle_exports_opens (can_open : pystr -> bool) (issues : list Issue)
    (summary : Summary) (outputs : Outputs) (fs : FileSystem) :
  (forall path, can_open path = true) ->
  exists fs', handle_exports can_open issues summary outputs fs = Written fs'.
Proof.
  intros Hopen. unfold handle_exports, export_csv, export_json.
  destruct (opt_truthy (output_csv outputs));
    [destruct (negb (nonempty_list issues))|];
    rewrite ?Hopen; destruct (opt_truthy (output_json outputs));
    rewrite ?Hopen; eauto.
Qed.

Lemma opt_truthy_path (o : option pystr) (path : pystr) :
  opt_truthy o = true -> o <> Some path -> default [] o <> path.
Proof. destruct o as [p|]; [|discriminate]. intros _ H. simpl. congruence. Qed.

(** The exports touch no path but the two of the command line. *)
Lemma handle_exports_frame (can_open : pystr -> bool) (issues : list Issue)
    (summary : Summary) (outputs : Outputs) (fs : FileSystem) (path : pystr) :
  output_csv outputs <> Some path -> output_json outputs <> Some path ->
  match handle_exports can_open issues summary outputs fs with
  | Written fs' | OSError fs' => fs' !! path = fs !! path
  end.
Proof.
  intros Hc Hj. unfold handle_exports, export_csv, export_json.
  destruct (opt_truthy (output_csv outputs)) eqn:Tc;
    destruct (opt_truthy (output_json outputs)) eqn:Tj;
    repeat match goal with
      | |- context [if ?b then _ else _] => destruct b
      end;
    rewrite ?lookup_insert_ne by (now apply opt_truthy_path);
    reflexivity.
Qed.

(** X17: with both outputs given and the two files opened, the JSON file
    holds the summary and the issues it was handed; the CSV file, when it
    is another path, holds the cleaned rows if there is an issue, and is
    left as it was, stale or absent, if there is none; no other path
    changes.  On one and the same path the JSON export, written last,
    wins. *)
Theorem handle_exports_files (can_open : pystr -> bool) (issues : list Issue)
    (summary : Summary) (csv_path json_path : pystr) (fs : FileSystem) :
  csv_path <> [] -> json_path <> [] ->
  can_open csv_path = true -> can_open json_path = true ->
  exists fs',
    handle_exports can_open issues summary
      {| output_csv := Some csv_path; output_json := Some json_path |} fs
    = Written fs' /\
    fs' !! json_path = Some (JsonFile summary issues) /\
    (csv_path <> json_path ->
     fs' !! csv_path =
     match issues with
     | [] => fs !! csv_path
     | _ :: _ => Some (CsvFile [py "row"; py "field"; py "value"; py "reason"]
                         (cleaned issues))
     end) /\
    (forall path, path <> csv_path -> path <> json_path ->
                  fs' !! path = fs !! path).
Proof.
  intros Hc Hj Oc Oj. unfold handle_exports, export_csv, export_json.
  cbn [output_csv output_json opt_truthy from_option id].
  destruct csv_path as [|c cs]; [contradiction|].
  destruct json_path as [|j js]; [contradiction|]. cbn [nonempty].
  rewrite Oj. destruct issues as [|issue issues]; cbn [nonempty_list negb].
  - eexists. split; [reflexivity|]. split; [apply lookup_insert_eq|]. split.
    + intros Hne. now rewrite lookup_insert_ne by congruence.
    + intros path _ Hp. now rewrite lookup_insert_ne by congruence.
  - rewrite Oc. eexists. split; [reflexivity|].
    split; [apply lookup_insert_eq|]. split.
    + intros Hne. rewrite lookup_insert_ne by congruence.
      apply lookup_insert_eq.
    + intros path Hpc Hpj. now rewrite !lookup_insert_ne by congruence.
Qed.

Lemma handle_exports_files_witness :
  let issues : list Issue := [dict [("row", VInt 1)]%string] in
  let summary := build_summary [∅] issues in
  exists fs',
    handle_exports (fun _ => true) issues summary
      {| output_csv := Some (py "out"); output_json := Some (py "out") |} ∅
    = Written fs' /\
    fs' !! py "out" = Some (JsonFile summary issues).
Proof.
  intros issues summary.
  destruct (handle_exports_files (fun _ => true) issues summary
              (py "out") (py "out") ∅) as (fs' & Hw & Hjson & _);
    [discriminate|discriminate|reflexivity|reflexivity|].
  exists fs'. split; [exact Hw|exact Hjson].
Defined.

(** X18: the exports do not change the exit status unless a file cannot
    be opened, and then the status is 30; without outputs the run leaves
    the file system as it was; in every run the paths that are not an
    output of the command line keep their file. *)
Theorem main_with_exports_status (can_open : pystr -> bool) (R : Runtime)
    (args : Args) (outputs : Outputs) (records : list Record) (fs : FileSystem) :
  ((main_with_exports can_open R args outputs records fs).2
   = exit_status R args records \/
   (main_with_exports can_open R args outputs records fs).2
   = EXIT_INTERNAL_ERROR) /\
  ((forall path, can_open path = true) ->
   (main_with_exports can_open R args outputs records fs).2
   = exit_status R args records) /\
  (opt_truthy (output_csv outputs) = false ->
   opt_truthy (output_json outputs) = false ->
   main_with_exports can_open R args outputs records fs
   = (fs, exit_status R args records)) /\
  (forall path,
     output_csv outputs <> Some path -> output_json outputs <> Some path ->
     (main_with_exports can_open R args outputs records fs).1 !! path
     = fs !! path).
Proof.
  unfold main_with_exports, exit_status, main.
  destruct (run_all_checks R records) as [all_issues|e];
    cbn [mbind result_bind]; [|now repeat split; auto].
  destruct (filter_issues_by_severity all_issues (severity_threshold args))
    as [filtered|e]; cbn [mbind result_bind]; [|now repeat split; auto].
  set (summary := build_summary records all_issues).
  assert (Hcode : (match determine_exit_code summary filtered args with
                   | Ok code => code
                   | Raise _ => EXIT_INTERNAL_ERROR
                   end)
                  = match
                      code ← determine_exit_code summary filtered args;
                      Ok {| out_summary := summary; out_issues := filtered;
                            out_code := code |}
                    with
                    | Ok out => out_code out
                    | Raise _ => EXIT_INTERNAL_ERROR
                    end).
  { now destruct (determine_exit_code summary filtered args). }
  rewrite <- Hcode. clear Hcode.
  split; [|split; [|split]].
  - destruct (handle_exports can_open filtered summary outputs fs);
      [|now right].
    left. now destruct (determine_exit_code summary filtered args).
  - intros Hopen.
    destruct (handle_exports_opens can_open filtered summary outputs fs Hopen)
      as [fs' ->].
    now destruct (determine_exit_code summary filtered args).
  - intros Hc Hj. rewrite handle_exports_none by assumption.
    now destruct (determine_exit_code summary filtered args).
  - intros path Hc Hj.
    pose proof (handle_exports_frame can_open filtered summary outputs fs path
                  Hc Hj) as Hframe.
    destruct (handle_exports can_open filtered summary outputs fs);
      [|exact Hframe].
    now destruct (determine_exit_code summary filtered args).
Qed.

(** X19: at the threshold [error] a run in which the checks return never
    writes, nor even opens, the CSV file; the JSON file, if asked for, lists
    no issue beside a summary that counts them all; the status is 0 unless
    the JSON file cannot be opened. *)
Theorem error_threshold_exports (can_open : pystr -> bool) (R : Runtime)
    (records : list Record) (all_issues : list Issue) (flag : bool)
    (outputs : Outputs) (fs : FileSystem) :
  run_all_checks R records = Ok all_issues ->
  main_with_exports can_open R
    {| severity_threshold := py "error"; fail_on_warning := flag |}
    outputs records fs
  = if opt_truthy (output_json outputs) then
      if can_open (default [] (output_json outputs)) then
        (<[default [] (output_json outputs) :=
             JsonFile (build_summary records all_issues) []]> fs, EXIT_OK)
      else (fs, EXIT_INTERNAL_ERROR)
    else (fs, EXIT_OK).
Proof.
  intros Hall. unfold main_with_exports. rewrite Hall.
  cbn [severity_threshold].
  pose proof (warning_only_filter_error all_issues
                (run_all_checks_severity R records all_issues Hall)) as Hf.
  rewrite Hf. unfold determine_exit_code. cbn [severity_threshold].
  unfold handle_exports, export_csv, export_json. cbn [nonempty_list negb].
  assert (Hcode : (if total_records (build_summary records all_issues) =? 0
                   then Ok EXIT_OK
                   else blocking ← filter_issues_by_severity [] (py "error");
                        (if nonempty_list blocking
                            && fail_on_warning
                                 {| severity_threshold := py "error";
                                    fail_on_warning := flag |}
                         then Ok EXIT_WARNING
                         else if nonempty_list blocking
                              then Ok EXIT_ISSUES_FOUND else Ok EXIT_OK))
                  = Ok EXIT_OK).
  { now destruct (_ =? 0). }
  rewrite Hcode.
  destruct (opt_truthy (output_csv outputs));
    destruct (opt_truthy (output_json outputs)); try reflexivity;
    now destruct (can_open _).
Qed.

Lemma error_threshold_exports_witness :
  let records : list Record := [∅] in
  exists all_issues,
    run_all_checks Sample.runtime records = Ok all_issues /\
    main_with_exports (fun _ => true) Sample.runtime
      {| severity_threshold := py "error"; fail_on_warning := false |}
      {| output_csv := Some (py "issues.csv"); output_json := None |}
      records ∅
    = (∅, EXIT_OK).
Proof.
  intros records.
  destruct (check_invalid_ages_total Sample.runtime records) as [ages Hages].
  { constructor; [|constructor]. intros age_raw Hdigit.
    vm_compute in Hdigit. discriminate Hdigit. }
  destruct (run_all_checks_total Sample.runtime records ages Hages)
    as [all_issues Hall].
  exists all_issues. split; [exact Hall|].
  exact (error_threshold_exports (fun _ => true) Sample.runtime records
           all_issues false
           {| output_csv := Some (py "issues.csv"); output_json := None |}
           ∅ Hall).
Defined.

Ltac issue_text H :=
  injection H as <-;
  first [ solve [constructor]
        | constructor; [|constructor];
          first [ left; eexists; split; reflexivity
                | right; split; reflexivity ] ].

(** Every rule of every validator writes its text under [reason], but for
    the first email rule. *)
Lemma validator_rules_text (R : Runtime) (v : validator) (idx : Z)
    (record : Record) (new : list Issue) :
  validator_rules R v idx record = Ok new -> Forall reason_or_issue new.
Proof.
  destruct v; cbn [validator_rules]; intros H.
  - unfold email_rules in H. split_body H; issue_text H.
  - unfold age_rules in H.
    destruct (negb (nonempty _)); [issue_text H|].
    destruct (negb (isdigit R _)); [issue_text H|].
    destruct (py_int R _) as [age|e]; [|discriminate]. simpl in H.
    destruct (_ || _); issue_text H.
  - unfold country_rules in H. destruct (negb _); issue_text H.
  - unfold signup_date_rules in H.
    destruct (negb _); [issue_text H|].
    rewrite parse_date_accepted in H. simpl in H.
    destruct (first_parse R _) as [d|]; [|issue_text H].
    destruct (date_gt _ _); issue_text H.
Qed.

(** What holds of the issues of every turn of every validator holds of the
    issues of all the checks. *)
Lemma run_all_checks_Forall (R : Runtime) (P : Issue -> Prop)
    (records : list Record) (issues : list Issue) :
  (forall v idx record new,
     validator_rules R v idx record = Ok new -> Forall P new) ->
  run_all_checks R records = Ok issues -> Forall P issues.
Proof.
  intros Hrules. unfold run_all_checks. intros H.
  destruct (check_invalid_emails records) as [emails|] eqn:He; [|discriminate].
  destruct (check_invalid_ages R records) as [ages|] eqn:Ha; [|discriminate].
  destruct (check_invalid_countries R records) as [countries|] eqn:Hc;
    [|discriminate].
  destruct (check_invalid_signup_dates R records) as [dates|] eqn:Hd;
    [|discriminate].
  injection H as <-.
  assert (Hloop : forall v all,
             for_each_record (validator_rules R v) 1 records = Ok all ->
             Forall P all).
  { intros v all Hall.
    eapply Forall_impl;
      [exact (for_each_record_Forall _ (fun _ => P) (Hrules v) _ _ _ Hall)|].
    now intros issue (j & _ & HP). }
  rewrite !Forall_app. repeat split.
  - exact (Hloop Emails _ He).
  - exact (Hloop Ages _ Ha).
  - exact (Hloop Countries _ Hc).
  - exact (Hloop SignupDates _ Hd).
Qed.

Lemma cleaned_dom (row field value reason : pyval) :
  dom (dict [("row", row); ("field", field); ("value", value);
             ("reason", reason)]%string : Issue)
  = ({[ py "row"; py "field"; py "value"; py "reason" ]} : gset pystr).
Proof.
  unfold dict. cbn [map fst snd list_to_map foldr uncurry].
  rewrite !dom_insert_L, dom_empty_L. set_solver.
Qed.

Lemma dict_get_lookup (issue : Issue) (k : string) :
  is_Some (issue !! py k) -> Some (dict_get issue k VNone) = issue !! py k.
Proof. unfold dict_get. now intros [v ->]. Qed.

(** X20: the rows of the CSV export of a run's issues have exactly the
    four columns, so the severity is dropped; row, field and value are
    those of the issue; the reason is the issue's, except for the issues of
    the first email rule (a number of [@] other than one), whose reason
    column is [None], that is, written empty. *)
Theorem cleaned_rows (R : Runtime) (records : list Record) (issues : list Issue) :
  run_all_checks R records = Ok issues ->
  Forall2
    (fun issue row : Issue =>
       csv_row_of issue row /\
       (issue !! py "issue" = None ->
        exists text, row !! py "reason" = Some (VStr text) /\
                     issue !! py "reason" = Some (VStr text)) /\
       (row !! py "reason" = Some VNone <->
        issue !! py "issue" = Some (VStr (py "missing or multiple @"))))
    issues (cleaned issues).
Proof.
  intros Hall.
  assert (Hshape : Forall (fun issue : Issue =>
                             (exists field, issue_of_field field issue) /\
                             reason_or_issue issue) issues).
  { apply (run_all_checks_Forall R _ records issues); [|exact Hall].
    intros v idx record new Hnew.
    pose proof (proj2 (validator_rules_one R v idx record new Hnew)) as Hf.
    pose proof (validator_rules_text R v idx record new Hnew) as Ht.
    rewrite Forall_forall in Hf, Ht. apply Forall_forall.
    intros issue Hin. split; [exists (validator_field v)|]; auto. }
  clear Hall. unfold cleaned.
  induction Hshape as [|issue issues [[field (Hfield & Hrow & Hvalue)] Htext] _ IH];
    cbn [map]; constructor; [|exact IH].
  assert (Hf : is_Some (issue !! py "field")) by (rewrite Hfield; eauto).
  split; [|split].
  - split; [apply cleaned_dom|].
    repeat split; try assumption;
      (etransitivity; [|now apply dict_get_lookup]); reflexivity.
  - intros Hno. destruct Htext as [(text & Hr & _)|[_ Hi]]; [|congruence].
    exists text. split; [|exact Hr].
    transitivity (Some (dict_get issue "reason" VNone)); [reflexivity|].
    unfold dict_get. now rewrite Hr.
  - transitivity (Some (dict_get issue "reason" VNone) = Some VNone);
      [reflexivity|].
    unfold dict_get.
    destruct Htext as [(text & -> & ->)|[-> ->]]; simpl; split;
      try reflexivity; discriminate.
Qed.

Lemma cleaned_rows_witness :
  let records : list Record := [dict [("email", py "bob@@x.com")]%string] in
  exists issues,
    run_all_checks Sample.runtime records = Ok issues /\
    Forall2
      (fun issue row : Issue =>
         csv_row_of issue row /\
         (issue !! py "issue" = None ->
          exists text, row !! py "reason" = Some (VStr text) /\
                       issue !! py "reason" = Some (VStr text)) /\
         (row !! py "reason" = Some VNone <->
          issue !! py "issue" = Some (VStr (py "missing or multiple @"))))
      issues (cleaned issues).
Proof.
  intros records.
  destruct (check_invalid_ages_total Sample.runtime records) as [ages Hages].
  { constructor; [|constructor]. intros age_raw Hdigit.
    vm_compute in Hdigit. discriminate Hdigit. }
  destruct (run_all_checks_total Sample.runtime records ages Hages)
    as [issues Hall].
  exists issues. split; [exact Hall|].
  exact (cleaned_rows Sample.runtime records issues Hall).
Defined.

(** ** The two date formats *)

Lemma first_alternative_some {A} (k : list reatom -> option A)
    (alts : list (list reatom)) (r : A) :
  first_alternative k alts = Some r -> exists alt, In alt alts /\ k alt = Some r.
Proof.
  induction alts as [|alt alts IH]; simpl; [discriminate|].
  destruct (k alt) as [r'|] eqn:Hk.
  - intros [= <-]. eauto.
  - intros H. destruct (IH H) as (alt' & Hin & Hk'). eauto.
Qed.

Lemma match_atoms_shape (R : Runtime) (atoms : list reatom) (s tok rest : pystr) :
  match_atoms R atoms s = Some (tok, rest) ->
  s = tok ++ rest /\ Forall2 (fun a c => atom_matches R a c = true) atoms tok.
Proof.
  revert s tok. induction atoms as [|a atoms IH]; intros s tok; simpl.
  - intros [= <- <-]. split; [reflexivity|constructor].
  - destruct s as [|c s]; [discriminate|].
    destruct (atom_matches R a c) eqn:Ha; [|discriminate].
    destruct (match_atoms R atoms s) as [[tok' rest']|] eqn:Hm; [|discriminate].
    intros [= <- <-]. destruct (IH _ _ Hm) as [-> Hall].
    split; [reflexivity|now constructor].
Qed.

(** A match of the compiled format cuts the string into one piece per
    item: the literal itself, or a token of one alternative of the
    directive. *)
Lemma regex_match_pieces (R : Runtime) (items : list fmt_item) (s : pystr)
    (groups : list (directive * pystr)) (rest : pystr) :
  regex_match R items s = Some (groups, rest) ->
  exists pieces,
    s = concat pieces ++ rest /\
    Forall2 (fun item piece =>
               match item with
               | FLit c => piece = [c]
               | FDir d =>
                   exists alt, In alt (directive_regex d) /\
                               Forall2 (fun a c => atom_matches R a c = true)
                                 alt piece
               end) items pieces.
Proof.
  revert s groups rest.
  induction items as [|item items IH]; intros s groups rest; simpl.
  - intros [= <- <-]. exists []. split; [reflexivity|constructor].
  - destruct item as [c|d].
    + destruct s as [|x s]; [discriminate|].
      destruct (N.eqb_spec x c) as [->|]; [|discriminate].
      intros H. destruct (IH _ _ _ H) as (pieces & -> & Hall).
      exists ([c] :: pieces). split; [reflexivity|now constructor].
    + intros H. apply first_alternative_some in H as (alt & Hin & H).
      destruct (match_atoms R alt s) as [[tok rest1]|] eqn:Hm; [|discriminate].
      destruct (regex_match R items rest1) as [[groups' rest']|] eqn:Hr;
        [|discriminate].
      injection H as <- <-.
      destruct (match_atoms_shape R _ _ _ _ Hm) as [-> Htok].
      destruct (IH _ _ _ Hr) as (pieces & -> & Hall).
      exists (tok :: pieces). split; [simpl; now rewrite app_assoc|].
      constructor; [|exact Hall]. eauto.
Qed.

(** No token of a directive holds a slash, and a token is as long as its
    alternative: one or two characters for a day or a month, four for
    [%Y], two for [%y]. *)
Lemma directive_token (R : Runtime) (d : directive) (alt : list reatom)
    (tok : pystr) :
  In alt (directive_regex d) ->
  Forall2 (fun a c => atom_matches R a c = true) alt tok ->
  (chr "/" ∉ tok) /\
  match d with
  | Dir_Y => length tok = 4%nat
  | Dir_y => length tok = 2%nat
  | Dir_d | Dir_m => (1 <= length tok <= 2)%nat
  end.
Proof.
  intros Hin Htok. split.
  - assert (Hno : forallb (forallb (fun a => negb (atom_matches R a (chr "/"))))
                    (directive_regex d) = true) by (now destruct d).
    rewrite forallb_forall in Hno. specialize (Hno alt Hin).
    rewrite forallb_forall in Hno.
    intros Hslash. clear Hin.
    induction Htok as [|a c alt tok Hac _ IH].
    + now apply not_elem_of_nil in Hslash.
    + apply elem_of_cons in Hslash as [<-|Hslash].
      * specialize (Hno a (or_introl eq_refl)). now rewrite Hac in Hno.
      * apply IH; [|exact Hslash]. intros a' Ha'. apply Hno. now right.
  - apply Forall2_length in Htok. rewrite <- Htok.
    destruct d; simpl in Hin; intuition subst; simpl; lia.
Qed.

(** A string parsed under a format of a directive, a slash, a directive, a
    slash and a directive is three slash-free tokens around two slashes. *)
Lemma strptime_three_tokens (R : Runtime) (s format : pystr) (d1 d2 d3 : directive)
    (parsed : date) :
  format_items format
  = Some [FDir d1; FLit (chr "/"); FDir d2; FLit (chr "/"); FDir d3] ->
  strptime R s format = Ok parsed ->
  exists a b c alt,
    str_split s (chr "/") = [a; b; c] /\
    In alt (directive_regex d3) /\
    Forall2 (fun x y => atom_matches R x y = true) alt c.
Proof.
  intros Hitems. unfold strptime. rewrite Hitems.
  destruct (regex_match R _ s) as [[groups rest]|] eqn:Hm; [|discriminate].
  destruct rest as [|x rest]; [|discriminate]. intros _.
  apply regex_match_pieces in Hm as (pieces & -> & Hall).
  apply Forall2_cons_inv_l in Hall as (p1 & l1 & T1 & Hall & ->).
  apply Forall2_cons_inv_l in Hall as (p2 & l2 & T2 & Hall & ->).
  apply Forall2_cons_inv_l in Hall as (p3 & l3 & T3 & Hall & ->).
  apply Forall2_cons_inv_l in Hall as (p4 & l4 & T4 & Hall & ->).
  apply Forall2_cons_inv_l in Hall as (p5 & l5 & T5 & Hall & ->).
  apply Forall2_nil_inv_l in Hall as ->.
  cbv beta iota in T1, T2, T3, T4, T5. subst p2 p4.
  destruct T1 as (alt1 & Hin1 & Ht1). destruct T3 as (alt3 & Hin3 & Ht3).
  destruct T5 as (alt5 & Hin5 & Ht5).
  exists p1, p3, p5, alt5.
  destruct (directive_token R _ _ _ Hin1 Ht1) as [H1 _].
  destruct (directive_token R _ _ _ Hin3 Ht3) as [H3 _].
  destruct (directive_token R _ _ _ Hin5 Ht5) as [H5 _].
  split; [|split; assumption].
  cbn [concat]. rewrite !app_nil_r. cbn [app].
  rewrite (str_split_at p1 _ _ H1), (str_split_at p3 _ _ H3).
  now rewrite (str_split_none p5 _ H5).
Qed.

(** X21: no string is a date under both accepted formats: the last token
    has four characters under the first and at most two under the second.
    So the order in which the formats are tried does not matter. *)
Theorem accepted_formats_exclusive (R : Runtime) (raw_date : pystr) :
  (forall d1 d2,
     strptime R raw_date (py "%d/%m/%Y") = Ok d1 ->
     strptime R raw_date (py "%y/%m/%d") = Ok d2 -> False) /\
  parse_date R raw_date [py "%y/%m/%d"; py "%d/%m/%Y"]
  = parse_date R raw_date accepted_formats.
Proof.
  assert (Hex : forall d1 d2,
             strptime R raw_date (py "%d/%m/%Y") = Ok d1 ->
             strptime R raw_date (py "%y/%m/%d") = Ok d2 -> False).
  { intros d1 d2 H1 H2.
    apply (strptime_three_tokens R raw_date (py "%d/%m/%Y") Dir_d Dir_m Dir_Y
             d1 eq_refl)
      in H1 as (a & b & c & alt & Hs & Hin & Htok).
    apply (strptime_three_tokens R raw_date (py "%y/%m/%d") Dir_y Dir_m Dir_d
             d2 eq_refl)
      in H2 as (a' & b' & c' & alt' & Hs' & Hin' & Htok').
    rewrite Hs in Hs'. injection Hs' as _ _ <-.
    pose proof (proj2 (directive_token R _ _ _ Hin Htok)) as H4.
    pose proof (proj2 (directive_token R _ _ _ Hin' Htok')) as H2.
    cbv beta iota in H4, H2. lia. }
  split; [exact Hex|]. unfold accepted_formats. cbn [parse_date].
  destruct (strptime R raw_date (py "%d/%m/%Y")) as [d1|e1] eqn:H1;
    destruct (strptime R raw_date (py "%y/%m/%d")) as [d2|e2] eqn:H2.
  - destruct (Hex d1 d2 eq_refl eq_refl).
  - apply strptime_error in H2 as ->. reflexivity.
  - apply strptime_error in H1 as ->. reflexivity.
  - apply strptime_error in H1 as ->. apply strptime_error in H2 as ->.
    reflexivity.
Qed.

(** ** Which signup dates pass *)

Lemma make_date_valid (y m d : Z) (parsed : date) :
  make_date y m d = Ok parsed ->
  1 <= year parsed <= 9999 /\ 1 <= month parsed <= 12 /\
  1 <= day parsed <= days_in_month (year parsed) (month parsed).
Proof.
  unfold make_date.
  destruct (Z.leb_spec 1 y); [|discriminate].
  destruct (Z.leb_spec y 9999); [|discriminate].
  destruct (Z.leb_spec 1 m); [|discriminate].
  destruct (Z.leb_spec m 12); [|discriminate].
  destruct (Z.leb_spec 1 d); [|discriminate].
  destruct (Z.leb_spec d (days_in_month y m)); [|discriminate].
  intros [= <-]. simpl. lia.
Qed.

Lemma strptime_valid (R : Runtime) (data_string format : pystr) (parsed : date) :
  strptime R data_string format = Ok parsed ->
  1 <= year parsed <= 9999 /\ 1 <= month parsed <= 12 /\
  1 <= day parsed <= days_in_month (year parsed) (month parsed).
Proof.
  unfold strptime.
  destruct (format_items format) as [items|]; [|discriminate].
  destruct (regex_match R items data_string) as [[groups remaining]|];
    [|discriminate].
  destruct (nonempty remaining); [discriminate|].
  destruct (found_fields R groups 1900 1 1) as [ymd|e]; [|discriminate].
  cbn [mbind result_bind]. apply make_date_valid.
Qed.

Lemma signup_date_rules_accept (R : Runtime) (idx : Z) (record : Record)
    (new : list Issue) :
  let raw_date := strip (dict_get record "signup_date" []) in
  signup_date_rules R idx record = Ok new ->
  (new = [] <->
   nonempty raw_date = true /\
   exists parsed, first_parse R raw_date = Some parsed /\
                  date_gt parsed (today R) = false).
Proof.
  intros raw_date. unfold signup_date_rules. fold raw_date.
  destruct (nonempty raw_date); cbn [negb].
  - rewrite parse_date_accepted. cbn [mbind result_bind].
    destruct (first_parse R raw_date) as [parsed|].
    + destruct (date_gt parsed (today R)) eqn:Hgt; intros [= <-]; split.
      * discriminate.
      * intros (_ & p & [= <-] & Hp). congruence.
      * intros _. eauto.
      * reflexivity.
    + intros [= <-]. split; [discriminate|]. now intros (_ & p & Hp & _).
  - intros [= <-]. split; [discriminate|]. now intros [? _].
Qed.

(** X22: when the signup date validator returns, it passes a record
    exactly when the trimmed date is not empty and parses, under one of the
    two formats, to a day that is not after today; and whatever parses is a
    day of the calendar: a month from 1 to 12 and a day that the month has
    in that year. *)
Theorem check_invalid_signup_dates_accepts (R : Runtime) (records : list Record)
    (issues : list Issue) (i : nat) (record : Record) :
  let raw_date := strip (dict_get record "signup_date" []) in
  check_invalid_signup_dates R records = Ok issues ->
  records !! i = Some record ->
  (issues_of_row (1 + Z.of_nat i) issues = [] <->
   nonempty raw_date = true /\
   exists parsed, first_parse R raw_date = Some parsed /\
                  date_gt parsed (today R) = false) /\
  (forall parsed,
     first_parse R raw_date = Some parsed ->
     1 <= year parsed <= 9999 /\ 1 <= month parsed <= 12 /\
     1 <= day parsed <= days_in_month (year parsed) (month parsed)).
Proof.
  intros raw_date Hall Hi.
  pose proof (for_each_record_row _ (signup_date_rules_stamps R)
                _ _ _ _ _ Hall Hi) as Hrow.
  split; [exact (signup_date_rules_accept R _ record _ Hrow)|].
  intros parsed. unfold first_parse.
  destruct (strptime R raw_date (py "%d/%m/%Y")) as [d1|e1] eqn:H1.
  - intros [= <-]. exact (strptime_valid R _ _ _ H1).
  - destruct (strptime R raw_date (py "%y/%m/%d")) as [d2|e2] eqn:H2;
      [|discriminate].
    intros [= <-]. exact (strptime_valid R _ _ _ H2).
Qed.

Lemma check_invalid_signup_dates_accepts_witness :
  let record : Record := dict [("signup_date", py "03/01/2026")]%string in
  exists issues,
    check_invalid_signup_dates Sample.runtime [record] = Ok issues /\
    issues_of_row (1 + Z.of_nat 0) issues = [].
Proof.
  intros record.
  destruct (check_invalid_signup_dates_total Sample.runtime [record])
    as [issues Hall].
  exists issues. split; [exact Hall|].
  destruct (check_invalid_signup_dates_accepts Sample.runtime [record] issues
              0 record Hall eq_refl) as (Hpass & _).
  apply Hpass. split; [reflexivity|].
  exists (mkdate 2026 1 3). split; vm_compute; reflexivity.
Defined.
